(** * FitGear inventory dashboard: response normalisation and state merge

    A shallow embedding of the decision logic of [src/app/page.tsx]:
    [tryParseJSON], [parseAgentResponse], [extractMessageFromResult] and
    the two agent call sites of the page component, [fetchDashboard] and
    [sendChat], together with the properties of the specification that
    concern them.

    The agent's reply is untyped on the JavaScript side ([any]); it is
    modelled by the type [jsval] of JSON-like values extended with
    [undefined].  Platform built-ins ([JSON.parse], [JSON.stringify],
    [String.prototype.trim], the regular expression engine) are modelled
    by executable definitions so that every function can be run on
    concrete envelopes. *)

From Stdlib Require Import String Ascii List ZArith Bool Lia PeanoNat.
From Stdlib Require Import DecimalString.
Import ListNotations.
Open Scope list_scope.
Open Scope string_scope.
Set Warnings "-register-all".

(* ================================================================== *)
(** * JavaScript values *)
(* ================================================================== *)

Module JS.

(** A number is kept as an exact decimal [mantissa * 10 ^ exponent].  The
    code under study only tests numbers for truthiness and prints them;
    IEEE-754 rounding is outside the model. *)
Record number : Set := mkNumber { mantissa : Z; exponent : Z }.

Definition int (z : Z) : number := mkNumber z 0.

Inductive jsval : Set :=
| VUndef
| VNull
| VBool (b : bool)
| VNum (n : number)
| VStr (s : string)
| VArr (items : list jsval)
| VObj (props : list (string * jsval)).

Inductive jstype : Set :=
| TUndefined | TObject | TBoolean | TNumber | TString.

Definition jstype_eqb (a b : jstype) : bool :=
  match a, b with
  | TUndefined, TUndefined | TObject, TObject | TBoolean, TBoolean
  | TNumber, TNumber | TString, TString => true
  | _, _ => false
  end.

(** [typeof v]; note that [typeof null] and [typeof []] are ['object']. *)
Definition typeof (v : jsval) : jstype :=
  match v with
  | VUndef => TUndefined
  | VNull | VArr _ | VObj _ => TObject
  | VBool _ => TBoolean
  | VNum _ => TNumber
  | VStr _ => TString
  end.

Definition is_object (v : jsval) : bool := jstype_eqb (typeof v) TObject.
Definition is_string (v : jsval) : bool := jstype_eqb (typeof v) TString.

(** [ToBoolean]: what [if (v)], [!v], [a && b] and [a || b] test. *)
Definition truthy (v : jsval) : bool :=
  match v with
  | VUndef | VNull => false
  | VBool b => b
  | VNum n => negb (mantissa n =? 0)%Z
  | VStr s => negb (s =? EmptyString)
  | VArr _ | VObj _ => true
  end.

(** [v == null], the test behind [??] and [?.]. *)
Definition nullish (v : jsval) : bool :=
  match v with
  | VUndef | VNull => true
  | _ => false
  end.

(** [a ?? b] *)
Definition coalesce (a b : jsval) : jsval := if nullish a then b else a.

(** Objects are association lists with distinct keys, in insertion
    order.  (JavaScript lists integer-like keys first; the order only
    shows in [JSON.stringify], whose output the code under study only
    logs or shows as text.) *)
Definition object : Set := list (string * jsval).

Fixpoint lookup (k : string) (o : object) : jsval :=
  match o with
  | [] => VUndef
  | (k', v) :: o' => if (k =? k') then v else lookup k o'
  end.

(** [o[k] = v]: overwrite in place, or append a new property. *)
Fixpoint assign (k : string) (v : jsval) (o : object) : object :=
  match o with
  | [] => [(k, v)]
  | (k', v') :: o' =>
      if (k =? k') then (k, v) :: o' else (k', v') :: assign k v o'
  end.

(** Property read [v?.k] (and [v.k] behind a truthiness guard).  The
    property names read by the code ([response], [result], [text],
    [raw_response], [message], [metrics], [lowStockAlerts],
    [inventoryItems], [salesData], [orders], [success], [error]) are not
    built-in properties of strings, arrays, numbers or booleans, so on
    those the read yields [undefined]. *)
Definition get (v : jsval) (k : string) : jsval :=
  match v with
  | VObj o => lookup k o
  | _ => VUndef
  end.

Definition index_key (i : nat) : string :=
  NilEmpty.string_of_uint (Nat.to_uint i).

Fixpoint indexed (i : nat) (l : list jsval) : object :=
  match l with
  | [] => []
  | v :: l' => (index_key i, v) :: indexed (S i) l'
  end.

Fixpoint chars (s : string) : list jsval :=
  match s with
  | EmptyString => []
  | String c r => VStr (String c EmptyString) :: chars r
  end.

(** Own enumerable properties copied by object spread [{...v}]. *)
Definition spread (v : jsval) : object :=
  match v with
  | VObj o => o
  | VArr l => indexed 0 l
  | VStr s => indexed 0 (chars s)
  | VUndef | VNull | VBool _ | VNum _ => []
  end.

(** [Array.isArray(v) && v.length > 0] *)
Definition nonempty_array (v : jsval) : bool :=
  match v with
  | VArr (_ :: _) => true
  | _ => false
  end.

(** [k in v]: the key is bound, whatever its value. *)
Definition has_key (v : jsval) (k : string) : bool :=
  match v with
  | VObj o => existsb (fun kv => fst kv =? k) o
  | _ => false
  end.

End JS.
Export JS.

Declare Scope js_scope.
Delimit Scope js_scope with js.
Infix "#" := get (at level 25, left associativity) : js_scope.
Open Scope js_scope.

(* ================================================================== *)
(** * Text: white space, trimming, JSON text *)
(* ================================================================== *)

Module Text.

Definition dquote : ascii := "034"%char.
Definition backslash : ascii := "092"%char.
Definition newline : ascii := "010"%char.
Definition backtick : ascii := "096"%char.

Definition nl : string := String newline EmptyString.

(** A string is the sequence of its UTF-16 code units, each stored as
    its UTF-8 encoding: one byte below U+0080, two bytes below U+0800,
    three bytes otherwise. *)
Definition byte_is (n : nat) (c : ascii) : bool :=
  (nat_of_ascii c =? n)%nat.

(** ECMAScript white space and line terminators, which are what [\s]
    matches and what [trim] removes.  In one byte: TAB, LF, VT, FF, CR
    and SPACE. *)
Definition is_space (c : ascii) : bool :=
  let n := nat_of_ascii c in
  (((9 <=? n) && (n <=? 13)) || (n =? 32))%nat.

(** In two bytes: U+00A0 (C2 A0). *)
Definition is_space2 (c d : ascii) : bool :=
  byte_is 194 c && byte_is 160 d.

(** In three bytes: U+1680 (E1 9A 80), U+2000 to U+200A (E2 80 80 to
    E2 80 8A), U+2028 and U+2029 (E2 80 A8, E2 80 A9), U+202F
    (E2 80 AF), U+205F (E2 81 9F), U+3000 (E3 80 80) and U+FEFF
    (EF BB BF). *)
Definition is_space3 (c d e : ascii) : bool :=
  let z := nat_of_ascii e in
  (byte_is 225 c && byte_is 154 d && byte_is 128 e)
  || (byte_is 226 c && byte_is 128 d
      && (((128 <=? z) && (z <=? 138)) || (z =? 168) || (z =? 169)
          || (z =? 175))%nat)
  || (byte_is 226 c && byte_is 129 d && byte_is 159 e)
  || (byte_is 227 c && byte_is 128 d && byte_is 128 e)
  || (byte_is 239 c && byte_is 187 d && byte_is 191 e).

(** A byte that continues a character. *)
Definition is_cont (c : ascii) : bool :=
  let n := nat_of_ascii c in ((128 <=? n) && (n <? 192))%nat.

(** The text after the white-space character [s] starts with, when it
    starts with one. *)
Definition white_space (s : string) : option string :=
  match s with
  | EmptyString => None
  | String c r =>
      if is_space c then Some r
      else
        match r with
        | EmptyString => None
        | String d r2 =>
            if is_space2 c d then Some r2
            else
              match r2 with
              | EmptyString => None
              | String e r3 => if is_space3 c d e then Some r3 else None
              end
        end
  end.

Fixpoint trimStart (s : string) : string :=
  match s with
  | EmptyString => EmptyString
  | String c r =>
      if is_space c then trimStart r
      else
        match r with
        | EmptyString => s
        | String d r2 =>
            if is_space2 c d then trimStart r2
            else
              match r2 with
              | EmptyString => s
              | String e r3 => if is_space3 c d e then trimStart r3 else s
              end
        end
  end.

(** Whether [s] is made of white-space characters only. *)
Fixpoint all_white (s : string) : bool :=
  match s with
  | EmptyString => true
  | String c r =>
      if is_space c then all_white r
      else
        match r with
        | EmptyString => false
        | String d r2 =>
            if is_space2 c d then all_white r2
            else
              match r2 with
              | EmptyString => false
              | String e r3 => if is_space3 c d e then all_white r3 else false
              end
        end
  end.

(** [trimEnd] cuts the text where only white space follows. *)
Fixpoint trimEnd (s : string) : string :=
  if all_white s then EmptyString
  else
    match s with
    | EmptyString => EmptyString
    | String c r => String c (trimEnd r)
    end.

Definition trim (s : string) : string := trimEnd (trimStart s).

(** [strip p s] is [Some r] when [s = p ++ r]. *)
Fixpoint strip (p s : string) : option string :=
  match p with
  | EmptyString => Some s
  | String a p' =>
      match s with
      | String b s' => if (a =? b)%char then strip p' s' else None
      | EmptyString => None
      end
  end.

Definition starts_with (p s : string) : bool :=
  match strip p s with Some _ => true | None => false end.

(** JSON source text is written below with an apostrophe standing for
    the double quote: [js "{'a':1}"] is the text [{"a":1}]. *)
Fixpoint js (s : string) : string :=
  match s with
  | EmptyString => EmptyString
  | String c r => String (if (c =? "'")%char then dquote else c) (js r)
  end.

End Text.
Export Text.

(* ================================================================== *)
(** * [JSON.parse] and [JSON.stringify] *)
(* ================================================================== *)

Module Json.

Definition is_json_ws (c : ascii) : bool :=
  let n := nat_of_ascii c in
  ((n =? 32) || (n =? 9) || (n =? 10) || (n =? 13))%nat.

Fixpoint skip_ws (s : string) : string :=
  match s with
  | String c r => if is_json_ws c then skip_ws r else s
  | EmptyString => EmptyString
  end.

Definition digit_of (c : ascii) : option Z :=
  let n := nat_of_ascii c in
  if ((48 <=? n) && (n <=? 57))%nat then Some (Z.of_nat (n - 48)) else None.

(** Reads a run of decimal digits, accumulating their value onto [acc]
    and counting them. *)
Fixpoint take_digits (s : string) (acc : Z) (count : nat)
  : Z * nat * string :=
  match s with
  | String c r =>
      match digit_of c with
      | Some d => take_digits r (10 * acc + d)%Z (S count)
      | None => (acc, count, s)
      end
  | EmptyString => (acc, count, s)
  end.

Definition parse_fraction (ip : Z) (s : string) : option (Z * nat * string) :=
  match s with
  | String "." r =>
      let '(m, n, s') := take_digits r ip 0 in
      if (n =? 0)%nat then None else Some (m, n, s')
  | _ => Some (ip, 0, s)
  end.

Definition parse_exponent (s : string) : option (Z * string) :=
  match s with
  | String e r =>
      if ((e =? "e") || (e =? "E"))%char then
        let '(neg, r') :=
          match r with
          | String "-" t => (true, t)
          | String "+" t => (false, t)
          | _ => (false, r)
          end in
        let '(ev, n, s') := take_digits r' 0%Z 0 in
        if (n =? 0)%nat then None
        else Some ((if neg then - ev else ev)%Z, s')
      else Some (0%Z, s)
  | EmptyString => Some (0%Z, s)
  end.

(** The JSON number grammar: an optional minus sign; an integer part
    that is either the single digit 0 or a non-zero digit followed by
    digits; an optional fraction (a dot and at least one digit); an
    optional exponent (e or E, an optional sign, at least one digit). *)
Definition parse_number (s : string) : option (number * string) :=
  let '(neg, s1) :=
    match s with
    | String "-" r => (true, r)
    | _ => (false, s)
    end in
  match s1 with
  | EmptyString => None
  | String c r =>
      match digit_of c with
      | None => None
      | Some d =>
          let '(ip, _, s2) :=
            if (d =? 0)%Z then (0%Z, 1, r) else take_digits r d 1 in
          match parse_fraction ip s2 with
          | None => None
          | Some (m, fd, s3) =>
              match parse_exponent s3 with
              | None => None
              | Some (ev, s4) =>
                  Some (mkNumber (if neg then - m else m)%Z
                                 (ev - Z.of_nat fd)%Z, s4)
              end
          end
      end
  end.

Definition hex_of (c : ascii) : option nat :=
  let n := nat_of_ascii c in
  if ((48 <=? n) && (n <=? 57))%nat then Some (n - 48)
  else if ((65 <=? n) && (n <=? 70))%nat then Some (n - 55)
  else if ((97 <=? n) && (n <=? 102))%nat then Some (n - 87)
  else None.

Definition hex4 (a b c d : ascii) : option nat :=
  match hex_of a, hex_of b, hex_of c, hex_of d with
  | Some x, Some y, Some z, Some w => Some (((x * 16 + y) * 16 + z) * 16 + w)
  | _, _, _, _ => None
  end.

(** Strings are byte sequences; a [\uXXXX] escape is stored as the UTF-8
    encoding of its code unit. *)
Definition utf8 (cp : nat) : string :=
  if (cp <? 128)%nat then String (ascii_of_nat cp) EmptyString
  else if (cp <? 2048)%nat then
    String (ascii_of_nat (192 + cp / 64))
      (String (ascii_of_nat (128 + cp mod 64)) EmptyString)
  else
    String (ascii_of_nat (224 + cp / 4096))
      (String (ascii_of_nat (128 + (cp / 64) mod 64))
         (String (ascii_of_nat (128 + cp mod 64)) EmptyString)).

Definition simple_escape (e : ascii) : option ascii :=
  if (e =? dquote)%char then Some dquote
  else if (e =? backslash)%char then Some backslash
  else if (e =? "/")%char then Some "/"%char
  else if (e =? "b")%char then Some "008"%char
  else if (e =? "f")%char then Some "012"%char
  else if (e =? "n")%char then Some "010"%char
  else if (e =? "r")%char then Some "013"%char
  else if (e =? "t")%char then Some "009"%char
  else None.

(** The characters of a string literal after its opening quote, up to
    and including the closing quote. *)
Fixpoint parse_chars (s : string) : option (string * string) :=
  match s with
  | EmptyString => None
  | String c r =>
      if (c =? dquote)%char then Some (EmptyString, r)
      else if (c =? backslash)%char then
        match r with
        | String "u" (String h1 (String h2 (String h3 (String h4 r')))) =>
            match hex4 h1 h2 h3 h4, parse_chars r' with
            | Some cp, Some (t, rest) => Some (utf8 cp ++ t, rest)
            | _, _ => None
            end
        | String e r' =>
            match simple_escape e, parse_chars r' with
            | Some ch, Some (t, rest) => Some (String ch t, rest)
            | _, _ => None
            end
        | EmptyString => None
        end
      else if (nat_of_ascii c <? 32)%nat then None
      else
        match parse_chars r with
        | Some (t, rest) => Some (String c t, rest)
        | None => None
        end
  end.

Definition parse_literal (s : string) : option (jsval * string) :=
  match strip "true" s, strip "false" s, strip "null" s with
  | Some r, _, _ => Some (VBool true, r)
  | _, Some r, _ => Some (VBool false, r)
  | _, _, Some r => Some (VNull, r)
  | _, _, _ =>
      match parse_number s with
      | Some (n, r) => Some (VNum n, r)
      | None => None
      end
  end.

(** Recursive descent on the JSON grammar.  [fuel] bounds the nesting
    depth; the loops over array elements and object members are bounded
    by the length of the remaining text. *)
Fixpoint parse_value (fuel : nat) (s : string) : option (jsval * string) :=
  match fuel with
  | O => None
  | S fuel' =>
      match skip_ws s with
      | EmptyString => None
      | String c r =>
          if (c =? "[")%char then
            match skip_ws r with
            | String "]" r' => Some (VArr [], r')
            | _ =>
                (fix elements (n : nat) (t : string) (acc : list jsval)
                   {struct n} : option (jsval * string) :=
                   match n with
                   | O => None
                   | S n' =>
                       match parse_value fuel' t with
                       | None => None
                       | Some (v, t1) =>
                           match skip_ws t1 with
                           | String "," t2 => elements n' t2 (v :: acc)
                           | String "]" t2 =>
                               Some (VArr (rev (v :: acc)), t2)
                           | _ => None
                           end
                       end
                   end) (String.length r) r []
            end
          else if (c =? "{")%char then
            match skip_ws r with
            | String "}" r' => Some (VObj [], r')
            | _ =>
                (fix members (n : nat) (t : string) (acc : object)
                   {struct n} : option (jsval * string) :=
                   match n with
                   | O => None
                   | S n' =>
                       match skip_ws t with
                       | EmptyString => None
                       | String q t0 =>
                           if (q =? dquote)%char then
                             match parse_chars t0 with
                             | None => None
                             | Some (k, t1) =>
                                 match skip_ws t1 with
                                 | String ":" t2 =>
                                     match parse_value fuel' t2 with
                                     | None => None
                                     | Some (v, t3) =>
                                         match skip_ws t3 with
                                         | String "," t4 =>
                                             members n' t4 (assign k v acc)
                                         | String "}" t4 =>
                                             Some (VObj (assign k v acc), t4)
                                         | _ => None
                                         end
                                     end
                                 | _ => None
                                 end
                             end
                           else None
                       end
                   end) (String.length r) r []
            end
          else if (c =? dquote)%char then
            match parse_chars r with
            | Some (t, rest) => Some (VStr t, rest)
            | None => None
            end
          else parse_literal (String c r)
      end
  end.

(** [JSON.parse(text)]: [None] stands for the [SyntaxError] it throws. *)
Definition JSON_parse (text : string) : option jsval :=
  match parse_value (S (String.length text)) text with
  | Some (v, rest) =>
      match skip_ws rest with
      | EmptyString => Some v
      | _ => None
      end
  | None => None
  end.

Definition Z_to_string (z : Z) : string :=
  NilZero.string_of_int (Z.to_int z).

(** [Number::toString] on the decimal model: the digits of an integer,
    or mantissa and exponent in scientific notation. *)
Definition number_to_string (n : number) : string :=
  if (exponent n =? 0)%Z then Z_to_string (mantissa n)
  else Z_to_string (mantissa n) ++ "e" ++ Z_to_string (exponent n).

Definition hex_digit (n : nat) : ascii :=
  ascii_of_nat (if (n <? 10)%nat then 48 + n else 87 + n).

Definition escape_char (c : ascii) : string :=
  let n := nat_of_ascii c in
  if (c =? dquote)%char then String backslash (String dquote EmptyString)
  else if (c =? backslash)%char then
    String backslash (String backslash EmptyString)
  else if (n =? 8)%nat then String backslash "b"
  else if (n =? 12)%nat then String backslash "f"
  else if (n =? 10)%nat then String backslash "n"
  else if (n =? 13)%nat then String backslash "r"
  else if (n =? 9)%nat then String backslash "t"
  else if (n <? 32)%nat then
    String backslash
      ("u00" ++ String (hex_digit (n / 16))
                  (String (hex_digit (n mod 16)) EmptyString))
  else String c EmptyString.

Fixpoint escape (s : string) : string :=
  match s with
  | EmptyString => EmptyString
  | String c r => escape_char c ++ escape r
  end.

Definition quote (s : string) : string :=
  String dquote (escape s ++ String dquote EmptyString).

Fixpoint join (sep : string) (l : list string) : string :=
  match l with
  | [] => EmptyString
  | [x] => x
  | x :: l' => x ++ sep ++ join sep l'
  end.

(** [JSON.stringify(v)]: [None] stands for the [undefined] it returns on
    [undefined].  Inside an array [undefined] prints as [null]; inside
    an object a property bound to [undefined] is left out. *)
Fixpoint JSON_stringify (v : jsval) : option string :=
  match v with
  | VUndef => None
  | VNull => Some "null"
  | VBool b => Some (if b then "true" else "false")
  | VNum n => Some (number_to_string n)
  | VStr s => Some (quote s)
  | VArr l =>
      Some ("[" ++ join ","
              (map (fun x => match JSON_stringify x with
                             | Some t => t
                             | None => "null"
                             end) l) ++ "]")
  | VObj o =>
      Some ("{" ++ join ","
              (flat_map (fun kv => match kv with
                                   | (k, x) =>
                                       match JSON_stringify x with
                                       | Some t => [quote k ++ ":" ++ t]
                                       | None => []
                                       end
                                   end) o) ++ "}")
  end.

End Json.
Export Json.


(* ================================================================== *)
(** * The tolerant decoder: [tryParseJSON] *)
(* ================================================================== *)

Module Decoder.

Definition fence : string := "```".

(** The regular expression of [tryParseJSON],
    [/```(?:json)?\s*\n?([\s\S]*?)\n?```/], as the backtracking search
    the engine performs.  Every function below matches the rest of the
    pattern from one point of it and returns the text captured by the
    group; alternatives are tried in the engine's priority order. *)

(** [([\s\S]*?)\n?```]: the lazy body stops at the first position where
    the closing fence, optionally preceded by a newline, matches. *)
Fixpoint lazy_body (s : string) : option string :=
  if starts_with (nl ++ fence) s || starts_with fence s then
    Some EmptyString
  else
    match s with
    | EmptyString => None
    | String c r =>
        match lazy_body r with
        | Some body => Some (String c body)
        | None => None
        end
    end.

(** [\n?] (greedy) and what follows. *)
Definition opt_newline (s : string) : option string :=
  match strip nl s with
  | Some r =>
      match lazy_body r with
      | Some body => Some body
      | None => lazy_body s
      end
  | None => lazy_body s
  end.

(** [\s*] (greedy) and what follows. *)
Fixpoint spaces (s : string) : option string :=
  let more (r : option string) :=
    match r with
    | Some body => Some body
    | None => opt_newline s
    end in
  match s with
  | EmptyString => opt_newline s
  | String c r =>
      if is_space c then more (spaces r)
      else
        match r with
        | EmptyString => opt_newline s
        | String d r2 =>
            if is_space2 c d then more (spaces r2)
            else
              match r2 with
              | EmptyString => opt_newline s
              | String e r3 =>
                  if is_space3 c d e then more (spaces r3)
                  else opt_newline s
              end
        end
  end.

(** [(?:json)?] (greedy) and what follows. *)
Definition opt_json (s : string) : option string :=
  match strip "json" s with
  | Some r =>
      match spaces r with
      | Some body => Some body
      | None => spaces s
      end
  | None => spaces s
  end.

Definition match_here (s : string) : option string :=
  match strip fence s with
  | Some r => opt_json r
  | None => None
  end.

(** [val.match(re)]: the leftmost match; the result is capture group 1,
    [None] when the expression does not match. *)
Fixpoint match_fence (s : string) : option string :=
  match match_here s with
  | Some body => Some body
  | None =>
      match s with
      | EmptyString => None
      | String _ r => match_fence r
      end
  end.

(** [tryParseJSON(val)]; the result [null] is the decoder's failure. *)
Definition tryParseJSON (val : jsval) : jsval :=
  if negb (truthy val) then VNull
  else if is_object val then val
  else
    match val with
    | VStr s =>
        match JSON_parse s with
        | Some v => v
        | None =>
            match match_fence s with
            | Some body =>
                match JSON_parse (trim body) with
                | Some v => v
                | None => VNull
                end
            | None => VNull
            end
        end
    | _ => VNull
    end.

(** ** The fenced block as a scan *)

(** The text after the leftmost triple backtick. *)
Fixpoint after_fence (s : string) : option string :=
  match strip fence s with
  | Some r => Some r
  | None =>
      match s with
      | EmptyString => None
      | String _ r => after_fence r
      end
  end.

Definition drop_json (s : string) : string :=
  match strip "json" s with
  | Some r => r
  | None => s
  end.

(** The fenced block as a single left-to-right scan: the text after the
    leftmost triple backtick, past an optional [json] tag and any white
    space, up to the next triple backtick (or the newline before it). *)
Definition scan_fence (s : string) : option string :=
  match after_fence s with
  | Some r => lazy_body (trimStart (drop_json r))
  | None => None
  end.

(** Whether a triple backtick occurs in [s]. *)
Definition closes (s : string) : bool :=
  match after_fence s with
  | Some _ => true
  | None => false
  end.

Fixpoint has_char (c : ascii) (s : string) : bool :=
  match s with
  | EmptyString => false
  | String c' r => (c =? c')%char || has_char c r
  end.

(** The fenced block in the words of the claim: a triple backtick, an
    optional [json] tag, a newline, a body, a triple backtick. *)
Definition claimed_fence (s : string) : Prop :=
  exists pre tag body post,
    (tag = EmptyString \/ tag = "json") /\
    s = pre ++ fence ++ tag ++ nl ++ body ++ fence ++ post.

End Decoder.
Export Decoder.

(* ================================================================== *)
(** * The envelope resolver: [parseAgentResponse] *)
(* ================================================================== *)

Module Resolver.

(** Control flow of a function body made of guarded early returns. *)
Inductive flow : Set :=
| Return (v : jsval)
| Continue.

Definition orElse (a b : flow) : flow :=
  match a with
  | Return v => Return v
  | Continue => b
  end.

Definition when (c : bool) (body : flow) : flow :=
  if c then body else Continue.

Definition finish (a : flow) : jsval :=
  match a with
  | Return v => v
  | Continue => VNull
  end.

Declare Scope flow_scope.
Delimit Scope flow_scope with flow.
Notation "a ;; b" := (orElse a b)
  (at level 61, right associativity) : flow_scope.
Open Scope flow_scope.

(** [d.k1 || d.k2 || ...] *)
Definition any_of (keys : list string) (d : jsval) : bool :=
  existsb (fun k => truthy (d # k)) keys.

(** [d && typeof d === 'object' && (d.k1 || d.k2 || ...)] *)
Definition accepts (keys : list string) (d : jsval) : bool :=
  truthy d && is_object d && any_of keys d.

Definition keys1 : list string :=
  ["message"; "metrics"; "lowStockAlerts"; "inventoryItems"].
Definition keys3 : list string := ["message"; "metrics"; "lowStockAlerts"].
Definition keys5 : list string := ["metrics"; "lowStockAlerts"].

(** Strategy 1: [result.response.result] directly. *)
Definition strategy1 (result : jsval) : flow :=
  let data := tryParseJSON (result # "response" # "result") in
  when (accepts keys1 data) (Return data).

(** Strategy 2: [result.response.result.text]. *)
Definition strategy2 (result : jsval) : flow :=
  let textField := result # "response" # "result" # "text" in
  when (truthy textField)
    (let parsed := tryParseJSON textField in
     when (accepts keys3 parsed) (Return parsed)).

(** Strategy 3: [raw_response], possibly nesting a [response]. *)
Definition strategy3 (result : jsval) : flow :=
  when (truthy (result # "raw_response"))
    (let rawParsed := tryParseJSON (result # "raw_response") in
     when (truthy rawParsed)
       (let inner := rawParsed # "response" in
        let inner := if is_string inner then tryParseJSON inner else inner in
        when (accepts keys3 inner) (Return inner) ;;
        when (accepts keys3 rawParsed) (Return rawParsed))).

(** Strategy 4: [result.response] directly. *)
Definition strategy4 (result : jsval) : flow :=
  let respDirect := tryParseJSON (result # "response") in
  when (accepts keys3 respDirect) (Return respDirect).

(** Strategy 5: [result.response.message] as JSON text, else as the
    message itself. *)
Definition strategy5 (result : jsval) : flow :=
  let msgField := result # "response" # "message" in
  when (truthy msgField && is_string msgField)
    (let msgParsed := tryParseJSON msgField in
     when (accepts keys5 msgParsed) (Return msgParsed) ;;
     Return (VObj [("message", msgField)])).

(** Strategy 6: [result] itself. *)
Definition strategy6 (result : jsval) : flow :=
  when (accepts keys3 result) (Return result).

Definition parseAgentResponse (result : jsval) : jsval :=
  if negb (truthy result) then VNull
  else
    finish (strategy1 result ;; strategy2 result ;; strategy3 result ;;
            strategy4 result ;; strategy5 result ;; strategy6 result).

Definition fallback_message : string :=
  "Response received. Dashboard updated.".

(** [typeof v === 'string' ? v : JSON.stringify(v)] *)
Definition stringified (v : jsval) : jsval :=
  if is_string v then v
  else
    match JSON_stringify v with
    | Some s => VStr s
    | None => VUndef
    end.

Definition extractMessageFromResult (result : jsval) : jsval :=
  let parsed := parseAgentResponse result in
  if truthy (parsed # "message") then parsed # "message"
  else
    let resp := result # "response" in
    if truthy (resp # "message") then resp # "message"
    else if truthy (resp # "result" # "text") then
      stringified (resp # "result" # "text")
    else if truthy (resp # "result" # "message") then
      resp # "result" # "message"
    else VStr fallback_message.

(** ** The strategies as a list *)

Definition strategies : list (jsval -> flow) :=
  [strategy1; strategy2; strategy3; strategy4; strategy5; strategy6].

(** The first [Return] of a list of strategies, in list order. *)
Definition first_of (fs : list (jsval -> flow)) (r : jsval) : flow :=
  fold_right (fun f rest => f r ;; rest) Continue fs.

(** The values each strategy decodes and tests, in the order of the
    source: [data], [parsed], [inner], [rawParsed], [respDirect],
    [msgParsed] and [result] itself. *)
Definition candidates (result : jsval) : list jsval :=
  let rawParsed := tryParseJSON (result # "raw_response") in
  let inner := rawParsed # "response" in
  [ tryParseJSON (result # "response" # "result");
    tryParseJSON (result # "response" # "result" # "text");
    (if is_string inner then tryParseJSON inner else inner);
    rawParsed;
    tryParseJSON (result # "response");
    tryParseJSON (result # "response" # "message");
    result ].

End Resolver.
Export Resolver.

(* ================================================================== *)
(** * The page component: dashboard state and the two agent call sites *)
(* ================================================================== *)

Module Page.

Definition AGENT_ID : string := "699d4f2141645707cdaec53a".

Inductive Role : Set := user | agent.

(** [content] is declared [string]; at run time it holds whatever value
    the handler put there.  [timestamp] is the reading of the clock
    taken by [new Date()]. *)
Record ChatMessage : Set := mkChatMessage {
  role : Role;
  content : jsval;
  timestamp : Z
}.

(** The [useState] cells of [Page] that the handlers write. *)
Record PageState : Set := mkPageState {
  agentData : jsval;
  loading : bool;
  error : jsval;
  activeAgentId : option string;
  chatMessages : list ChatMessage;
  chatInput : string;
  chatLoading : bool
}.

Definition initialState : PageState :=
  {| agentData := VNull; loading := true; error := VNull;
     activeAgentId := None; chatMessages := []; chatInput := EmptyString;
     chatLoading := false |}.

Definition setAgentData (f : jsval -> jsval) (st : PageState) : PageState :=
  {| agentData := f (agentData st); loading := loading st;
     error := error st; activeAgentId := activeAgentId st;
     chatMessages := chatMessages st; chatInput := chatInput st;
     chatLoading := chatLoading st |}.

Definition setLoading (b : bool) (st : PageState) : PageState :=
  {| agentData := agentData st; loading := b;
     error := error st; activeAgentId := activeAgentId st;
     chatMessages := chatMessages st; chatInput := chatInput st;
     chatLoading := chatLoading st |}.

Definition setError (e : jsval) (st : PageState) : PageState :=
  {| agentData := agentData st; loading := loading st;
     error := e; activeAgentId := activeAgentId st;
     chatMessages := chatMessages st; chatInput := chatInput st;
     chatLoading := chatLoading st |}.

Definition setActiveAgentId (a : option string) (st : PageState)
  : PageState :=
  {| agentData := agentData st; loading := loading st;
     error := error st; activeAgentId := a;
     chatMessages := chatMessages st; chatInput := chatInput st;
     chatLoading := chatLoading st |}.

Definition setChatMessages (f : list ChatMessage -> list ChatMessage)
  (st : PageState) : PageState :=
  {| agentData := agentData st; loading := loading st;
     error := error st; activeAgentId := activeAgentId st;
     chatMessages := f (chatMessages st); chatInput := chatInput st;
     chatLoading := chatLoading st |}.

Definition setChatInput (s : string) (st : PageState) : PageState :=
  {| agentData := agentData st; loading := loading st;
     error := error st; activeAgentId := activeAgentId st;
     chatMessages := chatMessages st; chatInput := s;
     chatLoading := chatLoading st |}.

Definition setChatLoading (b : bool) (st : PageState) : PageState :=
  {| agentData := agentData st; loading := loading st;
     error := error st; activeAgentId := activeAgentId st;
     chatMessages := chatMessages st; chatInput := chatInput st;
     chatLoading := b |}.

(** [prev => [...prev, m]] *)
Definition appendMessage (m : ChatMessage) (prev : list ChatMessage)
  : list ChatMessage := prev ++ [m].

(** ** How [await callAIAgent(...)] settles *)

Inductive thrown : Set :=
| ErrorInstance (message : string)
| NotAnError.

Inductive settled : Set :=
| Fulfilled (result : jsval)
| Rejected (e : thrown).

Definition TypeError_undefined : thrown :=
  ErrorInstance "Cannot read properties of undefined (reading 'substring')".
Definition TypeError_null : thrown :=
  ErrorInstance "Cannot read properties of null (reading 'success')".

(** The part of both [try] blocks up to the test of [result.success]:
    the awaited value, the [console.log] of
    [JSON.stringify(result).substring(0, 500)], which throws when
    [JSON.stringify] returns [undefined], and the read of
    [result.success], which throws on [null].  The text of the two
    [TypeError]s is the one V8 produces; nothing below depends on it. *)
Definition awaited (o : settled) : thrown + jsval :=
  match o with
  | Rejected e => inl e
  | Fulfilled result =>
      match JSON_stringify result with
      | None => inl TypeError_undefined
      | Some _ => if nullish result then inl TypeError_null else inr result
      end
  end.

(** [e instanceof Error ? e.message : otherwise] *)
Definition messageOf (e : thrown) (otherwise : string) : jsval :=
  match e with
  | ErrorInstance m => VStr m
  | NotAnError => VStr otherwise
  end.

(** ** [fetchDashboard] *)

(** Up to the [await]. *)
Definition fetchDashboard_start (st : PageState) : PageState :=
  setActiveAgentId (Some AGENT_ID) (setError VNull (setLoading true st)).

(** From the [await] on; [now] is the clock at that time. *)
Definition fetchDashboard_settle (o : settled) (now : Z) (st : PageState)
  : PageState :=
  let st1 :=
    match awaited o with
    | inr result =>
        if truthy (result # "success") then
          let parsed := parseAgentResponse result in
          if truthy parsed then
            let st' := setAgentData (fun _ => parsed) st in
            if truthy (parsed # "message") then
              setChatMessages
                (fun _ => [mkChatMessage agent (parsed # "message") now]) st'
            else st'
          else
            setError
              (VStr "Could not parse agent response. Try asking a question in the chat.")
              st
        else
          setError
            (coalesce (result # "error")
                      (VStr "Agent call failed. Please retry.")) st
    | inl e => setError (messageOf e "Network error") st
    end in
  setActiveAgentId None (setLoading false st1).

(** ** [sendChat] *)

(** The updater that [sendChat] passes to [setAgentData]. *)
Definition mergeSnapshot (parsed prev : jsval) : jsval :=
  let updated := spread prev in
  let updated :=
    if truthy (parsed # "metrics")
    then assign "metrics" (parsed # "metrics") updated else updated in
  let updated :=
    if nonempty_array (parsed # "lowStockAlerts")
    then assign "lowStockAlerts" (parsed # "lowStockAlerts") updated
    else updated in
  let updated :=
    if nonempty_array (parsed # "inventoryItems")
    then assign "inventoryItems" (parsed # "inventoryItems") updated
    else updated in
  let updated :=
    if nonempty_array (parsed # "salesData")
    then assign "salesData" (parsed # "salesData") updated else updated in
  let updated :=
    if nonempty_array (parsed # "orders")
    then assign "orders" (parsed # "orders") updated else updated in
  let updated :=
    if truthy (parsed # "message")
    then assign "message" (parsed # "message") updated else updated in
  VObj updated.

(** What the branch [if (parsed) { setAgentData(...) }] of [sendChat]
    does to the stored snapshot: nothing when [parsed] is [null]. *)
Definition merge (previous incoming : jsval) : jsval :=
  if truthy incoming then mergeSnapshot incoming previous else previous.

Definition listFields : list string :=
  ["lowStockAlerts"; "inventoryItems"; "salesData"; "orders"].

(** The stored snapshot is [null] or a record. *)
Definition is_snapshot (v : jsval) : bool :=
  match v with
  | VNull | VObj _ => true
  | _ => false
  end.

(** Whether [sendChat] goes past its guard [if (!msg || chatLoading)
    return]. *)
Definition sendChat_proceeds (st : PageState) : bool :=
  negb (trim (chatInput st) =? EmptyString) && negb (chatLoading st).

(** Up to the [await]. *)
Definition sendChat_start (now : Z) (st : PageState) : PageState :=
  let msg := trim (chatInput st) in
  if sendChat_proceeds st then
    let userMsg := mkChatMessage user (VStr msg) now in
    setActiveAgentId (Some AGENT_ID)
      (setChatLoading true
         (setChatMessages (appendMessage userMsg) (setChatInput EmptyString st)))
  else st.

(** From the [await] on. *)
Definition sendChat_settle (o : settled) (now : Z) (st : PageState)
  : PageState :=
  let st1 :=
    match awaited o with
    | inr result =>
        if truthy (result # "success") then
          let parsed := parseAgentResponse result in
          if truthy parsed then
            let st' := setAgentData (mergeSnapshot parsed) st in
            let agentText :=
              coalesce (parsed # "message")
                       (extractMessageFromResult result) in
            setChatMessages (appendMessage (mkChatMessage agent agentText now)) st'
          else
            let fallbackText := extractMessageFromResult result in
            setChatMessages
              (appendMessage (mkChatMessage agent fallbackText now)) st
        else
          setChatMessages
            (appendMessage (mkChatMessage agent
                       (coalesce (result # "error")
                                 (VStr "Sorry, something went wrong."))
                       now)) st
    | inl e =>
        setChatMessages
          (appendMessage (mkChatMessage agent (messageOf e "Network error.") now)) st
    end in
  setActiveAgentId None (setChatLoading false st1).

(** ** The operations of the page as a transition system *)

Inductive operation : Set :=
| FetchStart
| FetchSettle (o : settled) (now : Z)
| ChatStart (now : Z)
| ChatSettle (o : settled) (now : Z)
| TypeInput (text : string).

Definition run (op : operation) (st : PageState) : PageState :=
  match op with
  | FetchStart => fetchDashboard_start st
  | FetchSettle o now => fetchDashboard_settle o now st
  | ChatStart now => sendChat_start now st
  | ChatSettle o now => sendChat_settle o now st
  | TypeInput text => setChatInput text st
  end.

Definition run_all (ops : list operation) (st : PageState) : PageState :=
  fold_left (fun s op => run op s) ops st.

(** The states of a page session. *)
Inductive reachable : PageState -> Prop :=
| reachable_initial : reachable initialState
| reachable_run (op : operation) (st : PageState) :
    reachable st -> reachable (run op st).

(** The ways a call fails: the awaited promise rejects or handling its
    value throws; the transport reports [success] falsy; the resolver
    finds no snapshot. *)
Inductive failure : settled -> Prop :=
| failure_thrown (o : settled) (e : thrown) :
    awaited o = inl e -> failure o
| failure_unsuccessful (o : settled) (result : jsval) :
    awaited o = inr result ->
    truthy (result # "success") = false -> failure o
| failure_miss (o : settled) (result : jsval) :
    awaited o = inr result ->
    truthy (result # "success") = true ->
    parseAgentResponse result = VNull -> failure o.

(** The one operation that does not extend the transcript: a dashboard
    fetch that settles successfully with a truthy [message]. *)
Definition replaces_transcript (op : operation) : bool :=
  match op with
  | FetchSettle o _ =>
      match awaited o with
      | inr result =>
          truthy (result # "success")
          && truthy (parseAgentResponse result)
          && truthy (parseAgentResponse result # "message")
      | inl _ => false
      end
  | _ => false
  end.

(** A user line of the transcript as [sendChat] writes it: a non-empty
    string with no white space at either end. *)
Definition user_line_ok (m : ChatMessage) : Prop :=
  role m = user ->
  exists s, content m = VStr s /\ s <> EmptyString /\ trim s = s.

End Page.
Export Page.

(* ================================================================== *)
(** * What the page derives from its state: views, filters, badges *)
(* ================================================================== *)

Module Views.

(** [String.prototype.toLowerCase] for ASCII text: the letters A to Z
    are folded.  The bytes of other characters are left as they are,
    where the platform folds every cased letter; what is stated below
    about letter case is stated for ASCII text, or holds however other
    letters fold. *)
Definition lower_char (c : ascii) : ascii :=
  let n := nat_of_ascii c in
  if ((65 <=? n) && (n <=? 90))%nat then ascii_of_nat (n + 32) else c.

Fixpoint toLowerCase (s : string) : string :=
  match s with
  | EmptyString => EmptyString
  | String c r => String (lower_char c) (toLowerCase r)
  end.



(** [s.includes(sub)] *)
Fixpoint includes (s sub : string) : bool :=
  starts_with sub s ||
  match s with
  | EmptyString => false
  | String _ r => includes r sub
  end.

(** [(v ?? '').toLowerCase()]: [None] stands for the [TypeError] raised
    when [v] is neither nullish nor a string, [toLowerCase] not being a
    function there. *)
Definition lowered (v : jsval) : option string :=
  match coalesce v (VStr EmptyString) with
  | VStr s => Some (toLowerCase s)
  | _ => None
  end.

(** [v === s] for a string [s]. *)
Definition is_text (v : jsval) (s : string) : bool :=
  match v with
  | VStr t => t =? s
  | _ => false
  end.

(** ** Badge helpers *)

Definition getStatusColor (status : jsval) : option string :=
  match lowered status with
  | None => None
  | Some s =>
      Some
        (if (s =? "in stock") || (s =? "completed")
         then "bg-emerald-100 text-emerald-800 border-emerald-200"
         else if s =? "low"
         then "bg-amber-100 text-amber-800 border-amber-200"
         else if s =? "out of stock"
         then "bg-red-100 text-red-800 border-red-200"
         else if s =? "pending"
         then "bg-yellow-100 text-yellow-800 border-yellow-200"
         else if s =? "in transit"
         then "bg-blue-100 text-blue-800 border-blue-200"
         else "bg-secondary text-secondary-foreground")
  end.

Definition getPriorityColor (priority : jsval) : option string :=
  match lowered priority with
  | None => None
  | Some p =>
      Some
        (if p =? "high" then "bg-red-100 text-red-700 border-red-200"
         else if p =? "medium"
         then "bg-amber-100 text-amber-700 border-amber-200"
         else "bg-green-100 text-green-700 border-green-200")
  end.

(** The icon element [getTrendIcon] returns. *)
Inductive TrendIcon : Set := FiArrowUp | FiArrowDown | FiMinus.

Definition getTrendIcon (trend : jsval) : option TrendIcon :=
  match lowered trend with
  | None => None
  | Some t =>
      Some (if t =? "up" then FiArrowUp
            else if t =? "down" then FiArrowDown
            else FiMinus)
  end.

(** ** Effective data *)

(** [agentData ?? {}] *)
Definition data (agentData : jsval) : jsval :=
  coalesce agentData (VObj []).

(** [Array.isArray(v) ? v : []] *)
Definition arrayOr (v : jsval) : list jsval :=
  match v with
  | VArr l => l
  | _ => []
  end.

Definition metrics (agentData : jsval) : jsval :=
  data agentData # "metrics".
Definition lowStockAlerts (agentData : jsval) : list jsval :=
  arrayOr (data agentData # "lowStockAlerts").
Definition inventoryItems (agentData : jsval) : list jsval :=
  arrayOr (data agentData # "inventoryItems").
Definition salesData (agentData : jsval) : list jsval :=
  arrayOr (data agentData # "salesData").
Definition orders (agentData : jsval) : list jsval :=
  arrayOr (data agentData # "orders").

Definition hasData (agentData : jsval) : bool :=
  truthy (metrics agentData)
  || (0 <? List.length (lowStockAlerts agentData))%nat
  || (0 <? List.length (inventoryItems agentData))%nat
  || (0 <? List.length (salesData agentData))%nat
  || (0 <? List.length (orders agentData))%nat.

(** ** Filters *)

(** [Array.prototype.filter] with a callback that may throw: the first
    exception ends the whole call. *)
Fixpoint filterThrowing (keep : jsval -> option bool) (l : list jsval)
  : option (list jsval) :=
  match l with
  | [] => Some []
  | x :: l' =>
      match keep x with
      | None => None
      | Some b =>
          match filterThrowing keep l' with
          | None => None
          | Some r => Some (if b then x :: r else r)
          end
      end
  end.

(** The callback of [filteredInventory]. *)
Definition inventoryMatch
  (inventorySearch categoryFilter statusFilter : string) (item : jsval)
  : option bool :=
  let matchSearch :=
    if inventorySearch =? EmptyString then Some true
    else
      match lowered (item # "product") with
      | None => None
      | Some p =>
          if includes p (toLowerCase inventorySearch) then Some true
          else
            match lowered (item # "sku") with
            | None => None
            | Some k => Some (includes k (toLowerCase inventorySearch))
            end
      end in
  let matchCategory :=
    (categoryFilter =? "All")
    || is_text (coalesce (item # "category") (VStr EmptyString))
               categoryFilter in
  let matchStatus :=
    (statusFilter =? "All")
    || is_text (coalesce (item # "status") (VStr EmptyString))
               statusFilter in
  match matchSearch with
  | None => None
  | Some b => Some (b && matchCategory && matchStatus)
  end.

Definition filteredInventory
  (inventorySearch categoryFilter statusFilter : string)
  (items : list jsval) : option (list jsval) :=
  filterThrowing
    (inventoryMatch inventorySearch categoryFilter statusFilter) items.

(** Equality of two numbers as values. *)
Definition number_eqb (a b : number) : bool :=
  let e := Z.min (exponent a) (exponent b) in
  (mantissa a * 10 ^ (exponent a - e)
   =? mantissa b * 10 ^ (exponent b - e))%Z.

(** [SameValueZero] of two values held at different places of the
    snapshot: primitives compare by value, while two records or two
    arrays are different objects. *)
Definition sameValueZero (a b : jsval) : bool :=
  match a, b with
  | VUndef, VUndef | VNull, VNull => true
  | VBool x, VBool y => Bool.eqb x y
  | VNum x, VNum y => number_eqb x y
  | VStr x, VStr y => x =? y
  | _, _ => false
  end.

(** [Array.from(new Set(l))]: the first occurrence of every value, in
    order; [seen] holds the values already in the set. *)
Fixpoint uniqueFrom (seen l : list jsval) : list jsval :=
  match l with
  | [] => []
  | x :: l' =>
      if existsb (sameValueZero x) seen then uniqueFrom seen l'
      else x :: uniqueFrom (seen ++ [x]) l'
  end.

Definition unique (l : list jsval) : list jsval := uniqueFrom [] l.

Definition categories (items : list jsval) : list jsval :=
  VStr "All"
  :: unique
       (filter truthy
          (map (fun i => coalesce (i # "category") (VStr EmptyString))
               items)).

Definition statuses : list string :=
  ["All"; "In Stock"; "Low"; "Out of Stock"].

(** The callback of [filteredOrders]. *)
Definition orderMatch (orderTab : string) (o : jsval) : option bool :=
  if orderTab =? "All" then Some true
  else if orderTab =? "Pending" then
    match lowered (o # "status") with
    | None => None
    | Some s => Some ((s =? "pending") || (s =? "in transit"))
    end
  else if orderTab =? "Completed" then
    match lowered (o # "status") with
    | None => None
    | Some s => Some (s =? "completed")
    end
  else Some true.

Definition filteredOrders (orderTab : string) (l : list jsval)
  : option (list jsval) :=
  filterThrowing (orderMatch orderTab) l.

(** ** The set of expanded orders *)

(** A [Set] as the list of its elements in insertion order; [same] is
    the [SameValueZero] test of the elements. *)
Section SetOf.

Context {K : Type} (same : K -> K -> bool).

Definition set_has (s : list K) (x : K) : bool := existsb (same x) s.

Definition set_delete (s : list K) (x : K) : list K :=
  filter (fun y => negb (same x y)) s.

Definition set_add (s : list K) (x : K) : list K :=
  if set_has s x then s else s ++ [x].

(** The updater of [toggleOrder]. *)
Definition toggleOrder (orderId : K) (prev : list K) : list K :=
  if set_has prev orderId then set_delete prev orderId
  else set_add prev orderId.

End SetOf.

(** [order?.orderId ?? ''], the key of a row of the orders table. *)
Definition orderKey (order : jsval) : jsval :=
  coalesce (order # "orderId") (VStr EmptyString).

(** ** The error banner *)

(** What React does with a value used as a child, [{v}]: a string or a
    number is shown, a boolean, [null] or [undefined] shows nothing, an
    array shows its elements, and a record throws. *)
Fixpoint valid_child (v : jsval) : bool :=
  match v with
  | VObj _ => false
  | VArr l => forallb valid_child l
  | _ => true
  end.

(** [{error && (<div> ... <span>{error}</span> ... </div>)}]: whether
    the banner is rendered; [None] stands for the error thrown when
    [error] cannot be rendered as a child. *)
Definition errorBanner (error : jsval) : option bool :=
  if truthy error then
    if valid_child error then Some true else None
  else Some false.

End Views.
Export Views.

(* ================================================================== *)
(** * The Markdown renderer: [renderMarkdown] and [formatInline] *)
(* ================================================================== *)

Module Markdown.

(** [s.split('\n')] *)
Fixpoint split_lines (s : string) : list string :=
  match s with
  | EmptyString => [EmptyString]
  | String c r =>
      if (c =? newline)%char then EmptyString :: split_lines r
      else
        match split_lines r with
        | line :: rest => String c line :: rest
        | [] => [String c EmptyString]
        end
  end.

(** [s.slice(n)] for [n >= 0] *)
Fixpoint slice (n : nat) (s : string) : string :=
  match n, s with
  | O, _ => s
  | S n', String _ r => slice n' r
  | S _, EmptyString => EmptyString
  end.

(** The line terminators, which the pattern [.] does not match.  In
    one byte: LF and CR. *)
Definition is_line_terminator (c : ascii) : bool :=
  let n := nat_of_ascii c in ((n =? 10) || (n =? 13))%nat.

(** Whether [s] starts with a line terminator: LF, CR, U+2028
    (E2 80 A8) or U+2029 (E2 80 A9). *)
Definition line_end (s : string) : bool :=
  match s with
  | EmptyString => false
  | String c r =>
      is_line_terminator c
      || match r with
         | String d (String e _) =>
             byte_is 226 c && byte_is 128 d
             && (byte_is 168 e || byte_is 169 e)
         | _ => false
         end
  end.

Definition marker : string := "**".

(** The pattern of [formatInline], [/\*\*(.*?)\*\*/g], from the point
    after the opening marker: the lazy group grows until the closing
    marker matches, and fails at a line terminator or at the end.  It
    grows a byte at a time here, which stops at the same place as a
    code unit at a time, no byte inside a character being a [*].  The result is the captured text and the
    text after the closing marker. *)
Fixpoint lazy_until_marker (s : string) : option (string * string) :=
  match strip marker s with
  | Some rest => Some (EmptyString, rest)
  | None =>
      match s with
      | EmptyString => None
      | String c r =>
          if line_end s then None
          else
            match lazy_until_marker r with
            | Some (cap, rest) => Some (String c cap, rest)
            | None => None
            end
      end
  end.

Definition bold_here (s : string) : option (string * string) :=
  match strip marker s with
  | Some r => lazy_until_marker r
  | None => None
  end.

(** [text.split(/\*\*(.*?)\*\*/g)]: the pieces between the matches,
    with the captured group of every match between them.  [fuel] bounds
    the number of steps; every step consumes a character. *)
Fixpoint split_bold (fuel : nat) (s : string) : list string :=
  match fuel with
  | O => [s]
  | S fuel' =>
      match bold_here s with
      | Some (cap, rest) => EmptyString :: cap :: split_bold fuel' rest
      | None =>
          match s with
          | EmptyString => [EmptyString]
          | String c r =>
              match split_bold fuel' r with
              | part :: parts => String c part :: parts
              | [] => [String c EmptyString]
              end
          end
      end
  end.

Definition parts_of (text : string) : list string :=
  split_bold (String.length text) text.

(** A child of the rendered element: a string or a [<strong>]. *)
Inductive piece : Set :=
| Text (s : string)
| Strong (s : string).

(** [parts.map((part, i) => i % 2 === 1 ? <strong>{part}</strong> :
    part)] from index [i] on. *)
Fixpoint pieces_from (odd : bool) (parts : list string) : list piece :=
  match parts with
  | [] => []
  | p :: rest =>
      (if odd then Strong p else Text p) :: pieces_from (negb odd) rest
  end.

(** What [formatInline] returns: the text itself, or the array of
    pieces. *)
Inductive inline : Set :=
| Plain (text : string)
| Pieces (l : list piece).

Definition formatInline (text : string) : inline :=
  let parts := parts_of text in
  if (List.length parts =? 1)%nat then Plain text
  else Pieces (pieces_from false parts).

Definition is_digit (c : ascii) : bool :=
  let n := nat_of_ascii c in ((48 <=? n) && (n <=? 57))%nat.

(** The pattern [/^\d+\.\s/]: [dot_space] matches [\.\s], [more_digits]
    the greedy rest of [\d+]; the result is the text after the match,
    which is what [line.replace(/^\d+\.\s/, '')] leaves. *)
Definition dot_space (s : string) : option string :=
  match s with
  | String "." r => white_space r
  | _ => None
  end.

Fixpoint more_digits (s : string) : option string :=
  match s with
  | String c r =>
      if is_digit c then
        match more_digits r with
        | Some rest => Some rest
        | None => dot_space s
        end
      else dot_space s
  | EmptyString => dot_space s
  end.

Definition numbered (line : string) : option string :=
  match line with
  | String c r => if is_digit c then more_digits r else None
  | EmptyString => None
  end.

(** The element rendered for one line; the [key] of the element is its
    position in the list. *)
Inductive block : Set :=
| H4 (text : string)
| H3 (text : string)
| H2 (text : string)
| LiDisc (body : inline)
| LiDecimal (body : inline)
| Spacer
| Paragraph (body : inline).

Definition renderLine (line : string) : block :=
  if starts_with "### " line then H4 (slice 4 line)
  else if starts_with "## " line then H3 (slice 3 line)
  else if starts_with "# " line then H2 (slice 2 line)
  else if starts_with "- " line || starts_with "* " line
  then LiDisc (formatInline (slice 2 line))
  else
    match numbered line with
    | Some rest => LiDecimal (formatInline rest)
    | None =>
        if trim line =? EmptyString then Spacer
        else Paragraph (formatInline line)
    end.

(** [renderMarkdown(text)]: [None] stands for the [TypeError] raised by
    [text.split] on a truthy value that is not a string; [Some None] is
    the [null] returned for a falsy one. *)
Definition renderMarkdown (text : jsval) : option (option (list block)) :=
  if negb (truthy text) then Some None
  else
    match text with
    | VStr s => Some (Some (map renderLine (split_lines s)))
    | _ => None
    end.

(** The child of a chat bubble:
    [msg.role === 'agent' ? renderMarkdown(msg.content) : msg.content]. *)
Inductive bubble : Set :=
| Rendered (r : option (list block))
| Verbatim (content : jsval).

Definition renderBubble (msg : ChatMessage) : option bubble :=
  match role msg with
  | agent =>
      match renderMarkdown (content msg) with
      | Some r => Some (Rendered r)
      | None => None
      end
  | user => Some (Verbatim (content msg))
  end.

(** ** What the properties of the renderer are stated with *)

(** [parts.join(sep)] *)
Fixpoint join (sep : string) (parts : list string) : string :=
  match parts with
  | [] => EmptyString
  | [p] => p
  | p :: rest => (p ++ sep ++ join sep rest)%string
  end.

Fixpoint all_chars (p : ascii -> bool) (s : string) : bool :=
  match s with
  | EmptyString => true
  | String c r => p c && all_chars p r
  end.

Fixpoint count_char (c : ascii) (s : string) : nat :=
  match s with
  | EmptyString => 0
  | String c' r => (if (c =? c')%char then 1 else 0) + count_char c r
  end.

(** The text a piece was made from: a bold piece with its markers. *)
Definition piece_source (p : piece) : string :=
  match p with
  | Text s => s
  | Strong s => (marker ++ s ++ marker)%string
  end.

Definition inline_source (i : inline) : string :=
  match i with
  | Plain text => text
  | Pieces l => String.concat EmptyString (map piece_source l)
  end.

(** No line terminator starts anywhere in [s]. *)
Fixpoint no_line_end (s : string) : bool :=
  match s with
  | EmptyString => true
  | String _ r => negb (line_end s) && no_line_end r
  end.

(** A pair of markers with no line terminator between them: what the
    pattern of [formatInline] matches somewhere in [s]. *)
Definition has_bold (s : string) : Prop :=
  exists pre cap post,
    s = (pre ++ marker ++ cap ++ marker ++ post)%string /\
    no_line_end cap = true.

Definition piece_ok (p : piece) : Prop :=
  match p with
  | Text s => ~ has_bold s
  | Strong s => includes s marker = false /\ no_line_end s = true
  end.

(** A white-space character, as a text. *)
Definition is_white (w : string) : bool :=
  match white_space w with
  | Some EmptyString => true
  | _ => false
  end.

End Markdown.
Export Markdown.

(* ================================================================== *)
(** * Example envelopes and sessions *)
(* ================================================================== *)

Module Examples.

Definition exampleItem : jsval :=
  VObj [("product", VStr "Yoga Mat"); ("sku", VStr "YM-01");
        ("currentStock", VNum (int 4))].

Definition exampleMetrics : jsval :=
  VObj [("totalSKUs", VNum (int 5)); ("lowStockCount", VNum (int 1));
        ("pendingOrders", VNum (int 0)); ("topSeller", VStr "Yoga Mat")].

Definition fencedReply : string :=
  "Here is the data: ```json" ++ nl ++ js "{'message':'x'}" ++ nl ++ "```".


Definition userTurn : ChatMessage :=
  mkChatMessage user (VStr "Which items are low?") 10.

Definition agentTurn : ChatMessage :=
  mkChatMessage agent (VStr "Gloves are low.") 11.

(** A session: the page loads its inventory, then the user asks one
    question and the agent answers. *)
Definition session : list operation :=
  [ FetchStart;
    FetchSettle
      (Fulfilled
         (VObj [("success", VBool true);
                ("response",
                 VObj [("result",
                        VObj [("inventoryItems", VArr [exampleItem])])])]))
      5;
    TypeInput "Which items are low?";
    ChatStart 10;
    ChatSettle
      (Fulfilled
         (VObj [("success", VBool true);
                ("response", VObj [("message", VStr "Gloves are low.")])]))
      11 ].

Definition loadedState : PageState := run_all session initialState.

Definition summaryOnly : jsval :=
  VObj [("success", VBool true);
        ("response",
         VObj [("result", VObj [("message", VStr "Fresh summary")])])].

(** The user sends a first question while the initial fetch is still in
    flight. *)
Definition earlyQuestion : list operation :=
  [ FetchStart; TypeInput "Anything low?"; ChatStart 3 ].

(** A reply whose [message] is a number. *)
Definition numberReply : jsval :=
  VObj [("success", VBool true);
        ("response", VObj [("message", VNum (int 42))])].

(** An envelope whose [raw_response] is JSON text of a record whose
    [response] is JSON text again. *)
Definition innerText : string := js "{'message':'hi'}".

Definition outerText : string :=
  js "{'response':'{\'message\':\'hi\'}'}".

Definition doubleEncoded : jsval :=
  VObj [("raw_response", VStr outerText)].

Definition exampleInventory : list jsval :=
  [ VObj [("product", VStr "Yoga Mat"); ("sku", VStr "YM-01");
          ("category", VStr "Mats"); ("status", VStr "Low")];
    VObj [("product", VStr "Kettlebell"); ("sku", VStr "KB-16");
          ("category", VStr "Weights"); ("status", VStr "In Stock")];
    VNull ].



(** The transport reports failure with an empty error text, and with a
    record as error. *)
Definition emptyError : jsval :=
  VObj [("success", VBool false); ("error", VStr EmptyString)].

Definition recordError : jsval :=
  VObj [("success", VBool false);
        ("error", VObj [("code", VNum (int 500))])].

(** U+00A0, U+2028 and U+FEFF. *)
Definition noBreakSpace : string :=
  String "194" (String "160" EmptyString).

Definition lineSeparator : string :=
  String "226" (String "128" (String "168" EmptyString)).

Definition byteOrderMark : string :=
  String "239" (String "187" (String "191" EmptyString)).

End Examples.
Export Examples.

(* ================================================================== *)
(** * Properties *)
(* ================================================================== *)

Open Scope list_scope.

(** ** Records *)

Lemma lookup_assign_same (k : string) (v : jsval) (o : object) :
  lookup k (assign k v o) = v.
Proof.
  induction o as [|[k' v'] o IH]; simpl.
  - now rewrite String.eqb_refl.
  - destruct (k =? k') eqn:E; simpl.
    + now rewrite String.eqb_refl.
    + now rewrite E.
Qed.

Lemma lookup_assign_other (k k' : string) (v : jsval) (o : object) :
  k <> k' -> lookup k' (assign k v o) = lookup k' o.
Proof.
  intros Hne. induction o as [|[k0 v0] o IH]; simpl.
  - destruct (k' =? k) eqn:E; auto.
    apply String.eqb_eq in E. congruence.
  - destruct (k =? k0) eqn:E; simpl.
    + apply String.eqb_eq in E. subst k0.
      destruct (k' =? k) eqn:E'; auto.
      apply String.eqb_eq in E'. congruence.
    + now rewrite IH.
Qed.

Lemma lookup_assign (k k' : string) (v : jsval) (o : object) :
  lookup k' (assign k v o) = if k' =? k then v else lookup k' o.
Proof.
  destruct (k' =? k) eqn:E.
  - apply String.eqb_eq in E. subst. apply lookup_assign_same.
  - apply lookup_assign_other. intros ->. now rewrite String.eqb_refl in E.
Qed.

Lemma get_falsy (v : jsval) (k : string) :
  truthy v = false -> v # k = VUndef.
Proof. destruct v; simpl; auto; discriminate. Qed.

Lemma spread_snapshot (v : jsval) (k : string) :
  is_snapshot v = true -> lookup k (spread v) = v # k.
Proof. destruct v; simpl; auto; discriminate. Qed.

(** ** The state merger *)

(** Reading one field of the merged record: the chain of conditional
    assignments is a case analysis on the field name. *)
Lemma mergeSnapshot_get (parsed prev : jsval) (k : string) :
  mergeSnapshot parsed prev # k =
    if (k =? "message") && truthy (parsed # "message")
    then parsed # "message"
    else if (k =? "orders") && nonempty_array (parsed # "orders")
    then parsed # "orders"
    else if (k =? "salesData") && nonempty_array (parsed # "salesData")
    then parsed # "salesData"
    else if (k =? "inventoryItems")
            && nonempty_array (parsed # "inventoryItems")
    then parsed # "inventoryItems"
    else if (k =? "lowStockAlerts")
            && nonempty_array (parsed # "lowStockAlerts")
    then parsed # "lowStockAlerts"
    else if (k =? "metrics") && truthy (parsed # "metrics")
    then parsed # "metrics"
    else lookup k (spread prev).
Proof.
  unfold mergeSnapshot. cbv zeta. unfold get at 1.
  destruct (truthy (parsed # "message"));
  destruct (nonempty_array (parsed # "orders"));
  destruct (nonempty_array (parsed # "salesData"));
  destruct (nonempty_array (parsed # "inventoryItems"));
  destruct (nonempty_array (parsed # "lowStockAlerts"));
  destruct (truthy (parsed # "metrics"));
  rewrite ?lookup_assign, ?andb_false_r, ?andb_true_r;
  reflexivity.
Qed.

Arguments mergeSnapshot : simpl never.

Lemma mergeSnapshot_is_snapshot (parsed prev : jsval) :
  is_snapshot (mergeSnapshot parsed prev) = true.
Proof. reflexivity. Qed.

Lemma merge_get_list (S I : jsval) (k : string) :
  is_snapshot S = true -> In k listFields ->
  merge S I # k = if nonempty_array (I # k) then I # k else S # k.
Proof.
  intros HS Hk. unfold merge. destruct (truthy I) eqn:HI.
  - rewrite mergeSnapshot_get, (spread_snapshot _ _ HS).
    simpl in Hk.
    destruct Hk as [<-|[<-|[<-|[<-|[]]]]]; simpl;
      repeat match goal with
      | |- context [nonempty_array ?v] => destruct (nonempty_array v) eqn:?
      end; congruence.
  - now rewrite (get_falsy I k HI).
Qed.

Lemma merge_get_metrics (S I : jsval) :
  is_snapshot S = true ->
  merge S I # "metrics" =
    if truthy (I # "metrics") then I # "metrics" else S # "metrics".
Proof.
  intros HS. unfold merge. destruct (truthy I) eqn:HI.
  - rewrite mergeSnapshot_get, (spread_snapshot _ _ HS). reflexivity.
  - now rewrite (get_falsy I _ HI).
Qed.

Lemma merge_get_message (S I : jsval) :
  is_snapshot S = true ->
  merge S I # "message" =
    if truthy (I # "message") then I # "message" else S # "message".
Proof.
  intros HS. unfold merge. destruct (truthy I) eqn:HI.
  - rewrite mergeSnapshot_get, (spread_snapshot _ _ HS). simpl.
    destruct (truthy (I # "message")); reflexivity.
  - now rewrite (get_falsy I _ HI).
Qed.

(** Fields other than the six the merger knows are carried over. *)
Lemma merge_get_other (S I : jsval) (k : string) :
  is_snapshot S = true ->
  ~ In k ("metrics" :: "message" :: listFields) ->
  merge S I # k = S # k.
Proof.
  intros HS Hk. unfold merge. destruct (truthy I); [|reflexivity].
  rewrite mergeSnapshot_get, (spread_snapshot _ _ HS).
  repeat match goal with
  | |- context [k =? ?f] =>
      let E := fresh "E" in
      destruct (k =? f) eqn:E;
      [ apply String.eqb_eq in E; subst k; exfalso; apply Hk; simpl; tauto
      | simpl ]
  end.
  reflexivity.
Qed.

(** C1 (as amended).  The merge is field-wise and non-destructive: with
    no incoming snapshot the stored one is returned as it is; each list
    field of the result is the incoming list when that is a non-empty
    array and the stored value otherwise; [metrics] is replaced
    wholesale exactly when the incoming [metrics] is truthy, and
    [message] exactly when the incoming [message] is truthy, that is
    present and not the empty string. *)
Theorem merge_fieldwise (S I : jsval) :
  is_snapshot S = true ->
  merge S VNull = S /\
  (forall k, In k listFields ->
     merge S I # k = if nonempty_array (I # k) then I # k else S # k) /\
  merge S I # "metrics" =
    (if truthy (I # "metrics") then I # "metrics" else S # "metrics") /\
  merge S I # "message" =
    (if truthy (I # "message") then I # "message" else S # "message").
Proof.
  intros HS. split; [reflexivity|]. split; [|split].
  - intros k Hk. now apply merge_get_list.
  - now apply merge_get_metrics.
  - now apply merge_get_message.
Qed.

Lemma merge_fieldwise_witness :
  let S := VObj [("message", VStr "old"); ("inventoryItems", VArr [exampleItem])] in
  let I := VObj [("metrics", exampleMetrics); ("inventoryItems", VArr [])] in
  merge S I # "inventoryItems" = VArr [exampleItem] /\
  merge S I # "metrics" = exampleMetrics /\
  merge S I # "message" = VStr "old".
Proof.
  intros S I.
  destruct (merge_fieldwise S I eq_refl) as (_ & Hl & Hm & Hg).
  split; [|split].
  - rewrite (Hl "inventoryItems"); [reflexivity | simpl; tauto].
  - rewrite Hm. reflexivity.
  - rewrite Hg. reflexivity.
Defined.

(** C1 as stated fails: an incoming snapshot whose [message] is present
    but is the empty string does not replace the stored message. *)
Lemma merge_empty_message_kept :
  let S := VObj [("message", VStr "old")] in
  let I := VObj [("message", VStr EmptyString); ("metrics", exampleMetrics)] in
  is_snapshot S = true /\
  has_key I "message" = true /\
  merge S I # "message" = VStr "old" /\
  merge S I # "message" <> I # "message".
Proof.
  cbv zeta. repeat split; try reflexivity. vm_compute. discriminate.
Qed.

(** C8.  For the incoming snapshots [A = {salesData: [s1]}] and
    [B = {salesData: []}], merging in either order leaves [salesData]
    equal to [[s1]]; and an empty incoming list never replaces the
    stored value of a list field. *)
Theorem merge_order_tolerant (S s1 : jsval) :
  let A := VObj [("salesData", VArr [s1])] in
  let B := VObj [("salesData", VArr [])] in
  merge (merge S A) B # "salesData" = VArr [s1] /\
  merge (merge S B) A # "salesData" = VArr [s1] /\
  (forall (stored : object) (I : jsval) (k : string),
     In k listFields -> I # k = VArr [] ->
     merge (VObj stored) I # k = VObj stored # k).
Proof.
  intros A B. subst A B. split; [|split].
  - rewrite merge_get_list;
      [ | apply mergeSnapshot_is_snapshot | simpl; tauto ].
    unfold merge. simpl. apply lookup_assign_same.
  - unfold merge. simpl truthy. cbv iota.
    now rewrite mergeSnapshot_get.
  - intros stored I k Hk HI.
    rewrite merge_get_list by (auto; reflexivity). now rewrite HI.
Qed.

(** ** The tolerant decoder *)

Open Scope string_scope.

Lemma append_assoc (a b c : string) : (a ++ b) ++ c = a ++ b ++ c.
Proof. induction a as [|x a IH]; simpl; congruence. Qed.

(** *** White space *)

Lemma white_space_cons (c : ascii) (r : string) :
  white_space (String c r) =
    if is_space c then Some r
    else
      match r with
      | EmptyString => None
      | String d r2 =>
          if is_space2 c d then Some r2
          else
            match r2 with
            | EmptyString => None
            | String e r3 => if is_space3 c d e then Some r3 else None
            end
      end.
Proof. reflexivity. Qed.

Lemma trimStart_eq (s : string) :
  trimStart s =
    match white_space s with
    | Some r => trimStart r
    | None => s
    end.
Proof.
  destruct s as [|c [|d [|e r]]]; cbn [trimStart white_space]; auto.
  - now destruct (is_space c).
  - destruct (is_space c); auto. now destruct (is_space2 c d).
  - destruct (is_space c); auto. destruct (is_space2 c d); auto.
    now destruct (is_space3 c d e).
Qed.

Lemma all_white_eq (s : string) :
  all_white s =
    match s with
    | EmptyString => true
    | _ =>
        match white_space s with
        | Some r => all_white r
        | None => false
        end
    end.
Proof.
  destruct s as [|c [|d [|e r]]]; cbn [all_white white_space]; auto.
  - now destruct (is_space c).
  - destruct (is_space c); auto. now destruct (is_space2 c d).
  - destruct (is_space c); auto. destruct (is_space2 c d); auto.
    now destruct (is_space3 c d e).
Qed.

Lemma trimEnd_eq (s : string) :
  trimEnd s =
    if all_white s then EmptyString
    else
      match s with
      | EmptyString => EmptyString
      | String c r => String c (trimEnd r)
      end.
Proof. destruct s; reflexivity. Qed.

Lemma spaces_eq (s : string) :
  spaces s =
    match white_space s with
    | Some r =>
        match spaces r with
        | Some body => Some body
        | None => opt_newline s
        end
    | None => opt_newline s
    end.
Proof.
  destruct s as [|c [|d [|e r]]]; cbn [spaces white_space]; auto.
  - now destruct (is_space c).
  - destruct (is_space c); auto. now destruct (is_space2 c d).
  - destruct (is_space c); auto. destruct (is_space2 c d); auto.
    now destruct (is_space3 c d e).
Qed.

Lemma byte_is_eq (n : nat) (c : ascii) :
  byte_is n c = true -> nat_of_ascii c = n.
Proof. unfold byte_is. apply Nat.eqb_eq. Qed.

Lemma is_space_low (c : ascii) : is_space c = true -> nat_of_ascii c < 128.
Proof.
  unfold is_space. cbv zeta. intros H.
  apply orb_prop in H as [H|H].
  - apply andb_prop in H as [_ H]. apply Nat.leb_le in H. lia.
  - apply Nat.eqb_eq in H. lia.
Qed.

Lemma is_space2_bytes (c d : ascii) :
  is_space2 c d = true -> 192 <= nat_of_ascii c /\ is_cont d = true.
Proof.
  unfold is_space2, is_cont. intros H. apply andb_prop in H as [H1 H2].
  apply byte_is_eq in H1, H2. rewrite H1, H2. split; [lia|reflexivity].
Qed.

Lemma is_space3_bytes (c d e : ascii) :
  is_space3 c d e = true ->
  192 <= nat_of_ascii c /\ is_cont d = true /\ is_cont e = true.
Proof.
  unfold is_space3, is_cont. cbv zeta. intros H.
  repeat match type of H with
  | (_ || _)%bool = true => apply orb_prop in H as [H|H]
  end;
  repeat match goal with
  | H : (_ && _)%bool = true |- _ => apply andb_prop in H as [? ?]
  | H : (_ || _)%bool = true |- _ => apply orb_prop in H as [H|H]
  | H : byte_is _ _ = true |- _ => apply byte_is_eq in H
  | H : (_ <=? _)%nat = true |- _ => apply Nat.leb_le in H
  | H : (_ =? _)%nat = true |- _ => apply Nat.eqb_eq in H
  end;
  repeat split; try lia;
  apply andb_true_intro; split;
    try (apply Nat.leb_le; lia); try (apply Nat.ltb_lt; lia).
Qed.

Lemma is_cont_high (c : ascii) : is_cont c = true -> 128 <= nat_of_ascii c.
Proof.
  unfold is_cont. cbv zeta. intros H. apply andb_prop in H as [H _].
  now apply Nat.leb_le in H.
Qed.

(** A white-space character is a non-empty prefix. *)
Lemma white_space_Some (s r : string) :
  white_space s = Some r ->
  exists w, s = w ++ r /\ white_space w = Some EmptyString /\
            w <> EmptyString /\
            (forall c, nat_of_ascii c < 128 -> is_space c = false ->
                       has_char c w = false).
Proof.
  destruct s as [|c s]; [discriminate|]. rewrite white_space_cons.
  destruct (is_space c) eqn:E1.
  { intros H. injection H as <-. exists (String c EmptyString).
    repeat split; try discriminate.
    - rewrite white_space_cons. now rewrite E1.
    - intros a Ha Hs. simpl. rewrite orb_false_r.
      destruct (a =? c)%char eqn:E; auto.
      apply Ascii.eqb_eq in E. subst. congruence. }
  destruct s as [|d s]; [discriminate|].
  destruct (is_space2 c d) eqn:E2.
  { intros H. injection H as <-.
    exists (String c (String d EmptyString)).
    repeat split; try discriminate.
    - rewrite white_space_cons. now rewrite E1, E2.
    - intros a Ha _. apply is_space2_bytes in E2 as [Hc Hd].
      apply is_cont_high in Hd. simpl. rewrite orb_false_r.
      apply orb_false_intro;
        (destruct (Ascii.eqb_spec a c); destruct (Ascii.eqb_spec a d);
         auto; subst; lia). }
  destruct s as [|e s]; [discriminate|].
  destruct (is_space3 c d e) eqn:E3; [|discriminate].
  intros H. injection H as <-.
  exists (String c (String d (String e EmptyString))).
  repeat split; try discriminate.
  - rewrite white_space_cons. now rewrite E1, E2, E3.
  - intros a Ha _. apply is_space3_bytes in E3 as (Hc & Hd & He).
    apply is_cont_high in Hd, He. simpl. rewrite orb_false_r.
    destruct (Ascii.eqb_spec a c); [subst; lia|].
    destruct (Ascii.eqb_spec a d); [subst; lia|].
    destruct (Ascii.eqb_spec a e); [subst; lia|]. reflexivity.
Qed.

Lemma length_append (a b : string) :
  String.length (a ++ b) = String.length a + String.length b.
Proof. induction a; simpl; auto. Qed.

Lemma white_space_length (s r : string) :
  white_space s = Some r -> String.length r < String.length s.
Proof.
  intros H. apply white_space_Some in H as (w & -> & _ & Hw & _).
  rewrite length_append. destruct w; [contradiction|simpl; lia].
Qed.

(** Induction along the white-space characters a text starts with. *)
Lemma white_ind (P : string -> Prop) :
  (forall s, (forall r, white_space s = Some r -> P r) -> P s) ->
  forall s, P s.
Proof.
  intros H s.
  assert (Hn : forall n s, String.length s < n -> P s).
  { induction n as [|n IH]; intros s0 Hl; [lia|].
    apply H. intros r Hr. apply IH.
    apply white_space_length in Hr. lia. }
  apply (Hn (S (String.length s))). lia.
Qed.

Lemma white_space_app (s r t : string) :
  white_space s = Some r -> white_space (s ++ t) = Some (r ++ t).
Proof.
  destruct s as [|c s]; [discriminate|].
  change (String c s ++ t) with (String c (s ++ t)).
  rewrite !white_space_cons.
  destruct (is_space c); [intros H; injection H as <-; reflexivity|].
  destruct s as [|d s]; [discriminate|].
  change (String d s ++ t) with (String d (s ++ t)). cbv iota.
  destruct (is_space2 c d); [intros H; injection H as <-; reflexivity|].
  destruct s as [|e s]; [discriminate|].
  change (String e s ++ t) with (String e (s ++ t)). cbv iota.
  destruct (is_space3 c d e); [intros H; injection H as <-; reflexivity|discriminate].
Qed.

(** A text that does not start with white space does not start with it
    either when a text is put after it that does not start inside a
    character. *)
Lemma white_space_app_None (s t : string) :
  white_space s = None -> s <> EmptyString ->
  (forall d t', t = String d t' -> is_cont d = false) ->
  white_space (s ++ t) = None.
Proof.
  intros H Hs Ht.
  destruct s as [|c s]; [contradiction|].
  change (String c s ++ t) with (String c (s ++ t)).
  rewrite white_space_cons in *.
  destruct (is_space c); [discriminate|].
  destruct s as [|d s].
  - simpl append. destruct t as [|d t]; auto.
    specialize (Ht d t eq_refl).
    destruct (is_space2 c d) eqn:E2.
    { apply is_space2_bytes in E2 as [_ E2]. congruence. }
    destruct t as [|e t]; auto.
    destruct (is_space3 c d e) eqn:E3; auto.
    apply is_space3_bytes in E3 as (_ & E3 & _). congruence.
  - change (String d s ++ t) with (String d (s ++ t)). cbv iota.
    destruct (is_space2 c d); [discriminate|].
    destruct s as [|e s].
    + simpl append. destruct t as [|e t]; auto.
      specialize (Ht e t eq_refl).
      destruct (is_space3 c d e) eqn:E3; auto.
      apply is_space3_bytes in E3 as (_ & _ & E3). congruence.
    + change (String e s ++ t) with (String e (s ++ t)). cbv iota.
      now destruct (is_space3 c d e).
Qed.

Lemma white_space_newline (r : string) :
  white_space (String newline r) = Some r.
Proof. reflexivity. Qed.

Lemma white_space_start (d : ascii) (t r : string) :
  white_space (String d t) = Some r -> is_cont d = false.
Proof.
  rewrite white_space_cons. unfold is_cont. cbv zeta.
  destruct (is_space d) eqn:E1.
  { intros _. apply is_space_low in E1.
    apply andb_false_intro1. apply Nat.leb_gt. lia. }
  destruct t as [|e t]; [discriminate|].
  destruct (is_space2 d e) eqn:E2.
  { intros _. apply is_space2_bytes in E2 as [E2 _].
    apply andb_false_intro2. apply Nat.ltb_ge. lia. }
  destruct t as [|f t]; [discriminate|].
  destruct (is_space3 d e f) eqn:E3; [|discriminate].
  intros _. apply is_space3_bytes in E3 as [E3 _].
  apply andb_false_intro2. apply Nat.ltb_ge. lia.
Qed.

Lemma trimStart_suffix (s : string) : exists w, s = w ++ trimStart s.
Proof.
  induction s as [s IH] using white_ind. rewrite trimStart_eq.
  destruct (white_space s) as [r|] eqn:E; [|now exists EmptyString].
  destruct (IH r eq_refl) as [w1 Hw1].
  apply white_space_Some in E as (w & -> & _).
  exists (w ++ w1). rewrite append_assoc. now rewrite <- Hw1.
Qed.

Lemma trimStart_stops (s : string) : white_space (trimStart s) = None.
Proof.
  induction s as [s IH] using white_ind. rewrite trimStart_eq.
  destruct (white_space s) as [r|] eqn:E; auto.
Qed.

Lemma trimStart_idem (s : string) : trimStart (trimStart s) = trimStart s.
Proof. now rewrite (trimStart_eq (trimStart s)), trimStart_stops. Qed.

Lemma all_white_trimStart (s : string) :
  all_white (trimStart s) = all_white s.
Proof.
  induction s as [s IH] using white_ind.
  rewrite trimStart_eq, (all_white_eq s).
  destruct (white_space s) as [r|] eqn:E.
  - rewrite (IH r eq_refl). destruct s; [discriminate|reflexivity].
  - rewrite (all_white_eq s), E. reflexivity.
Qed.

Lemma all_white_start (d : ascii) (t : string) :
  all_white (String d t) = true -> is_cont d = false.
Proof.
  rewrite all_white_eq.
  destruct (white_space (String d t)) as [r|] eqn:E; [|discriminate].
  intros _. now apply white_space_start with t r.
Qed.

Lemma all_white_app (s w : string) :
  all_white w = true -> all_white (s ++ w) = all_white s.
Proof.
  intros Hw. induction s as [s IH] using white_ind.
  destruct s as [|c s]; [exact Hw|].
  rewrite (all_white_eq (String c s)), (all_white_eq (String c s ++ w)).
  change (String c s ++ w) with (String c (s ++ w)). cbv iota.
  change (String c (s ++ w)) with (String c s ++ w).
  destruct (white_space (String c s)) as [r|] eqn:E.
  - rewrite (white_space_app _ _ w E). now apply IH.
  - rewrite white_space_app_None; auto; [discriminate|].
    intros d t' ->. now apply all_white_start with t'.
Qed.

Lemma trimEnd_empty (s : string) :
  trimEnd s = EmptyString <-> all_white s = true.
Proof.
  rewrite trimEnd_eq. destruct (all_white s) eqn:E; [tauto|].
  destruct s; [discriminate|]. split; discriminate.
Qed.

Lemma trimEnd_app_white (s w : string) :
  all_white w = true -> trimEnd (s ++ w) = trimEnd s.
Proof.
  intros Hw. induction s as [|c s IH].
  - simpl append. rewrite trimEnd_eq, Hw. reflexivity.
  - rewrite (trimEnd_eq (String c s)), (trimEnd_eq (String c s ++ w)).
    rewrite (all_white_app _ _ Hw).
    destruct (all_white (String c s)); auto.
    change (String c s ++ w) with (String c (s ++ w)). cbv iota.
    now rewrite IH.
Qed.

(** What [trimEnd] removes is white space. *)
Lemma trimEnd_split (s : string) :
  exists w, s = trimEnd s ++ w /\ all_white w = true.
Proof.
  induction s as [|c s (w & Hs & Hw)].
  - now exists EmptyString.
  - rewrite trimEnd_eq. destruct (all_white (String c s)) eqn:E.
    + now exists (String c s).
    + exists w. split; auto. simpl. now rewrite <- Hs.
Qed.

Lemma trimEnd_idem (s : string) : trimEnd (trimEnd s) = trimEnd s.
Proof.
  induction s as [|c s IH]; [reflexivity|].
  rewrite (trimEnd_eq (String c s)).
  destruct (all_white (String c s)) eqn:E; [reflexivity|].
  rewrite trimEnd_eq.
  destruct (all_white (String c (trimEnd s))) eqn:E'.
  - destruct (trimEnd_split s) as (w & Hs & Hw).
    rewrite Hs in E.
    change (String c (trimEnd s ++ w)) with (String c (trimEnd s) ++ w) in E.
    rewrite (all_white_app _ _ Hw) in E. congruence.
  - now rewrite IH.
Qed.

(** Cutting white space at the end leaves the start as it was. *)
Lemma trimStart_trimEnd (y : string) :
  white_space y = None -> trimStart (trimEnd y) = trimEnd y.
Proof.
  intros H. rewrite trimStart_eq.
  destruct (white_space (trimEnd y)) as [r|] eqn:E; auto.
  destruct (trimEnd_split y) as (w & Hs & _).
  apply (white_space_app _ _ w) in E. rewrite <- Hs in E. congruence.
Qed.

Lemma trim_idem (s : string) : trim (trim s) = trim s.
Proof.
  unfold trim.
  rewrite (trimStart_trimEnd (trimStart s)) by apply trimStart_stops.
  apply trimEnd_idem.
Qed.

Lemma trim_empty_iff (s : string) :
  trim s = EmptyString <-> all_white s = true.
Proof.
  unfold trim. now rewrite trimEnd_empty, all_white_trimStart.
Qed.

(** *** The engine's search is a single scan *)

Lemma strip_fence_cons (c : ascii) (r : string) :
  strip fence (String c r) =
    if (backtick =? c)%char then strip "``" r else None.
Proof. reflexivity. Qed.

Lemma after_fence_cons (c : ascii) (r : string) :
  after_fence (String c r) =
    match strip fence (String c r) with
    | Some r0 => Some r0
    | None => after_fence r
    end.
Proof. reflexivity. Qed.

Lemma lazy_body_cons (c : ascii) (r : string) :
  lazy_body (String c r) =
    if starts_with (nl ++ fence) (String c r)
       || starts_with fence (String c r)
    then Some EmptyString
    else match lazy_body r with
         | Some body => Some (String c body)
         | None => None
         end.
Proof. reflexivity. Qed.

Lemma match_fence_cons (c : ascii) (r : string) :
  match_fence (String c r) =
    match match_here (String c r) with
    | Some body => Some body
    | None => match_fence r
    end.
Proof. reflexivity. Qed.

Lemma strip_nl_cons (c : ascii) (r : string) :
  strip nl (String c r) = if (newline =? c)%char then Some r else None.
Proof. reflexivity. Qed.

Lemma closes_cons (c : ascii) (r : string) :
  closes (String c r) =
    match strip fence (String c r) with
    | Some _ => true
    | None => closes r
    end.
Proof.
  unfold closes. rewrite after_fence_cons.
  now destruct (strip fence (String c r)).
Qed.

Lemma closes_skip (c : ascii) (r : string) :
  (backtick =? c)%char = false -> closes (String c r) = closes r.
Proof.
  intros H. rewrite closes_cons, strip_fence_cons. now rewrite H.
Qed.

Lemma closes_mono (c : ascii) (r : string) :
  closes r = true -> closes (String c r) = true.
Proof.
  intros H. rewrite closes_cons. now destruct (strip fence (String c r)).
Qed.

Lemma closes_app_skip (w r : string) :
  has_char backtick w = false -> closes (w ++ r) = closes r.
Proof.
  induction w as [|c w IH]; intros H; [reflexivity|].
  simpl in H. apply orb_false_elim in H as [Hc Hw].
  change (String c w ++ r) with (String c (w ++ r)).
  rewrite closes_skip by exact Hc. now apply IH.
Qed.

Lemma closes_white (s r : string) :
  white_space s = Some r -> closes s = closes r.
Proof.
  intros H. apply white_space_Some in H as (w & -> & _ & _ & Hw).
  apply closes_app_skip. apply Hw; [|reflexivity].
  apply Nat.ltb_lt. reflexivity.
Qed.

Lemma closes_trimStart (s : string) : closes (trimStart s) = closes s.
Proof.
  induction s as [s IH] using white_ind. rewrite trimStart_eq.
  destruct (white_space s) as [r|] eqn:E; auto.
  rewrite (IH r eq_refl). symmetry. now apply closes_white.
Qed.

Lemma strip_Some (p s r : string) : strip p s = Some r -> s = p ++ r.
Proof.
  revert s. induction p as [|a p IH]; intros s H; simpl in *.
  - now injection H as ->.
  - destruct s as [|b s]; [discriminate|].
    destruct (a =? b)%char eqn:E; [|discriminate].
    apply Ascii.eqb_eq in E. subst b. f_equal. now apply IH.
Qed.

Lemma closes_drop_json (s : string) : closes (drop_json s) = closes s.
Proof.
  unfold drop_json. destruct (strip "json" s) as [r|] eqn:E; auto.
  apply strip_Some in E. subst s. simpl append.
  now rewrite !closes_skip by reflexivity.
Qed.

Lemma lazy_body_none (s : string) :
  lazy_body s = None <-> closes s = false.
Proof.
  induction s as [|c r IH].
  - split; reflexivity.
  - rewrite closes_cons, lazy_body_cons.
    unfold starts_with at 2.
    destruct (strip fence (String c r)) eqn:Ef.
    + rewrite orb_true_r. split; discriminate.
    + rewrite orb_false_r.
      destruct (starts_with (nl ++ fence) (String c r)) eqn:En.
      * split; [discriminate|]. intros Hc. exfalso.
        unfold starts_with in En.
        change (strip (nl ++ fence) (String c r))
          with (if (newline =? c)%char then strip fence r else None) in En.
        destruct (newline =? c)%char; [|discriminate].
        assert (closes r = true); [|congruence].
        destruct r as [|c1 r]; [discriminate|].
        rewrite closes_cons.
        destruct (strip fence (String c1 r)); [reflexivity|discriminate].
      * destruct (lazy_body r); split; intros H; try discriminate.
        -- apply IH in H. discriminate.
        -- now apply IH.
        -- reflexivity.
Qed.

Lemma lazy_body_closes_false (s : string) :
  closes s = false -> lazy_body s = None.
Proof. apply lazy_body_none. Qed.

Lemma opt_newline_none (s : string) :
  closes s = false -> opt_newline s = None.
Proof.
  intros H. unfold opt_newline.
  rewrite (lazy_body_closes_false s H).
  destruct (strip nl s) as [r|] eqn:E; auto.
  destruct s as [|c s']; [discriminate|]. rewrite strip_nl_cons in E.
  destruct (newline =? c)%char eqn:Ec; [|discriminate].
  injection E as <-.
  rewrite closes_skip in H.
  - now rewrite (lazy_body_closes_false s' H).
  - apply Ascii.eqb_eq in Ec. now subst c.
Qed.

Lemma spaces_scan (s : string) : spaces s = lazy_body (trimStart s).
Proof.
  induction s as [s IH] using white_ind.
  rewrite spaces_eq, trimStart_eq.
  destruct (white_space s) as [r|] eqn:E.
  - rewrite (IH r eq_refl).
    destruct (lazy_body (trimStart r)) eqn:El; auto.
    apply opt_newline_none.
    rewrite (closes_white _ _ E), <- closes_trimStart.
    now apply lazy_body_none.
  - unfold opt_newline. destruct (strip nl s) as [r|] eqn:En; auto.
    destruct s as [|c s']; [discriminate|]. rewrite strip_nl_cons in En.
    destruct (newline =? c)%char eqn:Ec; [|discriminate].
    apply Ascii.eqb_eq in Ec. subst c.
    rewrite white_space_newline in E. discriminate.
Qed.

Lemma opt_json_scan (s : string) :
  opt_json s = lazy_body (trimStart (drop_json s)).
Proof.
  unfold opt_json. pose proof (closes_drop_json s) as Hc.
  unfold drop_json in *.
  destruct (strip "json" s) as [r|]; [|apply spaces_scan].
  rewrite spaces_scan.
  destruct (lazy_body (trimStart r)) eqn:El; auto.
  rewrite spaces_scan. apply lazy_body_closes_false.
  rewrite closes_trimStart, <- Hc, <- closes_trimStart.
  now apply lazy_body_none.
Qed.

Lemma scan_none (r : string) :
  lazy_body (trimStart (drop_json r)) = None <-> closes r = false.
Proof.
  rewrite lazy_body_none, closes_trimStart, closes_drop_json. tauto.
Qed.

(** Once the leftmost fence has no closing fence after it, no later
    starting point has one either. *)
Lemma scan_fence_tail (c : ascii) (r r0 : string) :
  strip fence (String c r) = Some r0 ->
  closes r0 = false ->
  scan_fence r = None.
Proof.
  intros Hs Hc. unfold scan_fence.
  destruct (after_fence r) as [r1|] eqn:Ea; auto.
  apply scan_none.
  destruct (closes r1) eqn:H1; auto. exfalso.
  apply strip_Some in Hs. simpl in Hs. injection Hs as _ ->.
  rewrite after_fence_cons in Ea.
  destruct (strip fence (String "`" (String "`" r0))) as [x|] eqn:E1.
  - injection Ea as ->. apply strip_Some in E1. simpl in E1.
    injection E1 as ->.
    rewrite (closes_mono _ r1 H1) in Hc. discriminate.
  - rewrite after_fence_cons in Ea.
    destruct (strip fence (String "`" r0)) as [x|] eqn:E2.
    + injection Ea as ->. apply strip_Some in E2. simpl in E2.
      injection E2 as ->.
      rewrite (closes_mono _ _ (closes_mono _ r1 H1)) in Hc. discriminate.
    + unfold closes in Hc. rewrite Ea in Hc. discriminate.
Qed.

(** The backtracking search of the engine never needs to backtrack: it
    finds what the single scan finds. *)
Lemma match_fence_scan (s : string) : match_fence s = scan_fence s.
Proof.
  induction s as [|c r IH].
  - reflexivity.
  - rewrite match_fence_cons. unfold match_here. rewrite IH.
    unfold scan_fence at 2. rewrite after_fence_cons.
    destruct (strip fence (String c r)) as [r0|] eqn:Es.
    + rewrite opt_json_scan.
      destruct (lazy_body (trimStart (drop_json r0))) eqn:El; auto.
      apply scan_none in El. now apply scan_fence_tail with c r0.
    + reflexivity.
Qed.

Lemma has_char_app (c : ascii) (a b : string) :
  has_char c (a ++ b) = has_char c a || has_char c b.
Proof.
  induction a as [|c' a IH]; simpl; auto.
  now rewrite IH, orb_assoc.
Qed.

(** *** A fenced block in a text *)

Lemma has_char_cons (c c' : ascii) (r : string) :
  has_char c (String c' r) = (c =? c')%char || has_char c r.
Proof. reflexivity. Qed.

Lemma strip_fence_app (r : string) : strip fence (fence ++ r) = Some r.
Proof. reflexivity. Qed.

(** The leftmost fence of a text that starts without backticks. *)
Lemma after_fence_app (pre r : string) :
  has_char backtick pre = false ->
  after_fence (pre ++ fence ++ r) = Some r.
Proof.
  induction pre as [|c pre IH]; intros H.
  - reflexivity.
  - rewrite has_char_cons in H. apply orb_false_elim in H as [Hc Hp].
    change (String c pre ++ fence ++ r)
      with (String c (pre ++ fence ++ r)).
    rewrite after_fence_cons, strip_fence_cons, Hc. now apply IH.
Qed.

Lemma strip_app (p s t : string) (r : string) :
  strip p s = Some r -> strip p (s ++ t) = Some (r ++ t).
Proof.
  revert s. induction p as [|a p IH]; intros s H; simpl in *.
  - now injection H as ->.
  - destruct s as [|b s]; [discriminate|]. simpl.
    destruct (a =? b)%char; [now apply IH | discriminate].
Qed.

Lemma strip_json_fence (r t : string) :
  strip "json" r = None -> strip "json" (r ++ fence ++ t) = None.
Proof.
  destruct r as [|c1 [|c2 [|c3 [|c4 r]]]]; simpl; auto;
    repeat match goal with
    | |- context [if ?b then _ else _] => destruct b; auto
    end; discriminate.
Qed.

Lemma drop_json_app (r t : string) :
  drop_json (r ++ fence ++ t) = drop_json r ++ fence ++ t.
Proof.
  unfold drop_json. destruct (strip "json" r) as [x|] eqn:E.
  - now rewrite (strip_app _ _ (fence ++ t) _ E).
  - now rewrite (strip_json_fence _ t E).
Qed.

Lemma trimStart_app (r t : string) :
  trimStart (r ++ fence ++ t) = trimStart r ++ fence ++ t.
Proof.
  induction r as [r IH] using white_ind.
  rewrite (trimStart_eq r), (trimStart_eq (r ++ fence ++ t)).
  destruct (white_space r) as [r'|] eqn:E.
  - rewrite (white_space_app _ _ _ E). now apply IH.
  - destruct r as [|c r']; [reflexivity|].
    rewrite white_space_app_None; auto; [discriminate|].
    intros d t' Ht. injection Ht as <- _. reflexivity.
Qed.

Lemma has_char_trimStart (c : ascii) (s : string) :
  has_char c s = false -> has_char c (trimStart s) = false.
Proof.
  destruct (trimStart_suffix s) as [w Hw]. rewrite Hw at 1.
  rewrite has_char_app. intros H. now apply orb_false_elim in H.
Qed.

Lemma has_char_drop_json (c : ascii) (s : string) :
  has_char c s = false -> has_char c (drop_json s) = false.
Proof.
  unfold drop_json. destruct (strip "json" s) as [r|] eqn:E; auto.
  apply strip_Some in E. subst s. rewrite has_char_app.
  intros H. now apply orb_false_elim in H.
Qed.

(** The body captured before the closing fence: the text itself, or the
    text less the newline that ends it; the two trim alike. *)
Lemma lazy_body_app (y t : string) :
  has_char backtick y = false ->
  exists c, lazy_body (y ++ fence ++ t) = Some c /\
            trimEnd c = trimEnd y /\
            (c = y \/ y = c ++ nl).
Proof.
  assert (Hshape : has_char backtick y = false ->
            exists c, lazy_body (y ++ fence ++ t) = Some c /\
                      (c = y \/ y = c ++ nl)).
  { induction y as [|c0 y IH]; intros H.
    - exists EmptyString. split; auto.
    - rewrite has_char_cons in H. apply orb_false_elim in H as [Hc Hy].
      destruct (IH Hy) as (c & Hl & Hs).
      change (String c0 y ++ fence ++ t) with (String c0 (y ++ fence ++ t)).
      rewrite lazy_body_cons.
      unfold starts_with at 2. rewrite strip_fence_cons, Hc, orb_false_r.
      unfold starts_with.
      change (strip (nl ++ fence) (String c0 (y ++ fence ++ t)))
        with (if (newline =? c0)%char then strip fence (y ++ fence ++ t)
              else None).
      destruct (newline =? c0)%char eqn:En.
      + apply Ascii.eqb_eq in En. subst c0.
        destruct y as [|c1 y].
        * exists EmptyString. split; auto.
        * change (String c1 y ++ fence ++ t)
            with (String c1 (y ++ fence ++ t)) in Hl |- *.
          rewrite strip_fence_cons.
          rewrite has_char_cons in Hy.
          apply orb_false_elim in Hy as [Hc1 _].
          rewrite Hc1, Hl. exists (String newline c). split; auto.
          destruct Hs as [->|Hs]; auto. right. simpl. now rewrite <- Hs.
      + rewrite Hl. exists (String c0 c). split; auto.
        destruct Hs as [->|Hs]; auto. right. simpl. now rewrite <- Hs. }
  intros H. destruct (Hshape H) as (c & Hl & Hs).
  exists c. repeat split; auto.
  destruct Hs as [E | E]; subst; auto.
  symmetry. now apply trimEnd_app_white.
Qed.

Lemma trimStart_fixed_prefix (c y : string) :
  trimStart y = y -> y = c ++ nl -> trimStart c = c.
Proof.
  intros Hy ->. rewrite trimStart_eq.
  destruct (white_space c) as [r|] eqn:E; auto.
  apply (white_space_app _ _ nl) in E.
  rewrite <- Hy, trimStart_stops in E. discriminate.
Qed.

(** A text with a fenced block: no backtick before the opening fence
    and none inside the block.  The engine captures the block's content
    less its [json] tag, up to white space at both ends. *)
Lemma match_fence_block (pre r post : string) :
  has_char backtick pre = false ->
  has_char backtick r = false ->
  exists c, match_fence (pre ++ fence ++ r ++ fence ++ post) = Some c /\
            trim c = trim (drop_json r).
Proof.
  intros Hpre Hr. rewrite match_fence_scan. unfold scan_fence.
  rewrite (after_fence_app _ _ Hpre), drop_json_app, trimStart_app.
  set (y := trimStart (drop_json r)).
  assert (Hy : has_char backtick y = false)
    by now apply has_char_trimStart, has_char_drop_json.
  destruct (lazy_body_app y post Hy) as (c & Hl & Ht & Hs).
  exists c. split; [exact Hl|].
  unfold trim. fold y.
  assert (Hfix : trimStart y = y) by apply trimStart_idem.
  assert (Hc : trimStart c = c).
  { destruct Hs as [->|Hs]; auto. now apply trimStart_fixed_prefix with y. }
  now rewrite Hc.
Qed.

(** No triple backtick, no match. *)
Lemma match_fence_none (s : string) :
  closes s = false -> match_fence s = None.
Proof.
  intros H. rewrite match_fence_scan. unfold scan_fence.
  unfold closes in H. now destruct (after_fence s).
Qed.

Lemma closes_false_no_fence (s a b : string) :
  closes s = false -> s <> a ++ fence ++ b.
Proof.
  intros H ->. revert H. induction a as [|c a IH]; intros H.
  - discriminate.
  - change (String c a ++ fence ++ b) with (String c (a ++ fence ++ b)) in H.
    rewrite closes_cons in H.
    destruct (strip fence (String c (a ++ fence ++ b))); [discriminate|].
    now apply IH.
Qed.

Lemma claimed_fence_newline (s : string) :
  claimed_fence s -> has_char newline s = true.
Proof.
  intros (pre & tag & body & post & _ & ->).
  rewrite !has_char_app. simpl (has_char newline nl).
  now rewrite !orb_true_r.
Qed.

(** White space other than ASCII counts: after the tag a no-break
    space (U+00A0), before the closing fence a line separator (U+2028)
    and a byte order mark (U+FEFF). *)
Lemma fence_after_no_break_space :
  tryParseJSON
    (VStr ("```json" ++ noBreakSpace ++ js "{'a':1}" ++ "```"))
    = VObj [("a", VNum (int 1))] /\
  tryParseJSON
    (VStr ("```" ++ lineSeparator ++ js "{'a':1}" ++ byteOrderMark
           ++ "```"))
    = VObj [("a", VNum (int 1))].
Proof. split; vm_compute; reflexivity. Qed.

Lemma JSON_parse_empty : JSON_parse EmptyString = None.
Proof. reflexivity. Qed.

Lemma truthy_VStr (s : string) :
  s <> EmptyString -> truthy (VStr s) = true.
Proof. destruct s; simpl; congruence. Qed.

(** C5 (as amended).  The decoder is this case analysis.  A falsy value
    (absent, [null], the empty string, [0], [false]) yields failure; a
    record or an array is returned unchanged; any other value that is
    not a string yields failure; a string that parses strictly as a
    whole yields the parse result; otherwise the leftmost fenced block
    is looked for, made of a triple backtick, an optional [json] tag,
    optional white space (a newline is not required), and a body running
    to the next triple backtick, and its trimmed body is parsed
    strictly: the result on success, failure when the body does not
    parse or when there is no such block.  In particular a text holding
    one fenced block decodes to the block's content less the tag, and a
    text without a triple backtick that does not parse as a whole
    fails, as does ["not json at all"]. *)
Theorem tryParseJSON_cases :
  (forall val, truthy val = false -> tryParseJSON val = VNull) /\
  (forall val, truthy val = true -> is_object val = true ->
               tryParseJSON val = val) /\
  (forall val, is_object val = false -> is_string val = false ->
               tryParseJSON val = VNull) /\
  (forall s v, JSON_parse s = Some v -> tryParseJSON (VStr s) = v) /\
  (forall pre r post,
     has_char backtick pre = false -> has_char backtick r = false ->
     JSON_parse (pre ++ fence ++ r ++ fence ++ post) = None ->
     tryParseJSON (VStr (pre ++ fence ++ r ++ fence ++ post)) =
       match JSON_parse (trim (drop_json r)) with
       | Some v => v
       | None => VNull
       end) /\
  (forall s, JSON_parse s = None -> closes s = false ->
             tryParseJSON (VStr s) = VNull) /\
  (forall s, JSON_parse s = None ->
     tryParseJSON (VStr s) =
       match scan_fence s with
       | Some body =>
           match JSON_parse (trim body) with
           | Some v => v
           | None => VNull
           end
       | None => VNull
       end) /\
  tryParseJSON (VStr "not json at all") = VNull.
Proof.
  assert (Hscan : forall s, JSON_parse s = None ->
     tryParseJSON (VStr s) =
       match scan_fence s with
       | Some body =>
           match JSON_parse (trim body) with
           | Some v => v
           | None => VNull
           end
       | None => VNull
       end).
  { intros s H. unfold tryParseJSON.
    destruct s as [|c r]; [reflexivity|].
    simpl truthy. simpl is_object. cbv iota.
    now rewrite H, match_fence_scan. }
  repeat split.
  - intros val H. unfold tryParseJSON. now rewrite H.
  - intros val Ht Ho. unfold tryParseJSON. now rewrite Ht, Ho.
  - intros val Ho Hs. unfold tryParseJSON. rewrite Ho.
    destruct (truthy val); simpl; auto.
    destruct val; try reflexivity; discriminate.
  - intros s v H. unfold tryParseJSON.
    rewrite truthy_VStr; [simpl; now rewrite H|].
    intros ->. rewrite JSON_parse_empty in H. discriminate.
  - intros pre r post Hpre Hr Hp. rewrite (Hscan _ Hp).
    destruct (match_fence_block pre r post Hpre Hr) as (c & Hc & Ht).
    rewrite <- match_fence_scan, Hc. now rewrite Ht.
  - intros s Hp Hc. rewrite (Hscan _ Hp).
    now rewrite <- match_fence_scan, (match_fence_none _ Hc).
  - exact Hscan.
Qed.

Lemma tryParseJSON_cases_witness :
  tryParseJSON (VStr (js "{'message':'x'}")) = VObj [("message", VStr "x")] /\
  tryParseJSON (VStr fencedReply) = VObj [("message", VStr "x")] /\
  tryParseJSON (VNum (int 7)) = VNull.
Proof.
  destruct tryParseJSON_cases as (_ & _ & H3 & H4 & H5 & _).
  split; [|split].
  - apply H4. reflexivity.
  - exact (H5 "Here is the data: "
                (("json" ++ nl ++ js "{'message':'x'}") ++ nl)
                EmptyString eq_refl eq_refl eq_refl).
  - apply H3; reflexivity.
Defined.

(** C5 as stated fails: the text below has no newline at all, hence no
    fenced block of the stated shape, and does not parse as a whole; yet
    the decoder finds the block and returns its parsed body. *)
Lemma fence_without_newline :
  let s := js "```{'a':1}```" in
  JSON_parse s = None /\
  ~ claimed_fence s /\
  tryParseJSON (VStr s) = VObj [("a", VNum (int 1))] /\
  tryParseJSON (VStr s) <> VNull.
Proof.
  cbv zeta. split; [reflexivity|]. split; [|split].
  - intros H. apply claimed_fence_newline in H. discriminate.
  - reflexivity.
  - vm_compute. discriminate.
Qed.

Open Scope list_scope.

(** ** The envelope resolver *)

Lemma orElse_Continue_r (a : flow) : (a ;; Continue) = a.
Proof. now destruct a. Qed.

Lemma parseAgentResponse_first_of (r : jsval) :
  parseAgentResponse r =
    if truthy r then finish (first_of strategies r) else VNull.
Proof.
  unfold parseAgentResponse, first_of, strategies. simpl fold_right.
  rewrite orElse_Continue_r. now destruct (truthy r).
Qed.

Lemma first_of_wins (fs : list (jsval -> flow)) (r : jsval) :
  forall (i : nat) (f : jsval -> flow) (d : jsval),
    nth_error fs i = Some f ->
    (forall j g, j < i -> nth_error fs j = Some g -> g r = Continue) ->
    f r = Return d ->
    first_of fs r = Return d.
Proof.
  induction fs as [|f0 fs IH]; intros i f d Hi Hbefore Hf.
  - destruct i; discriminate.
  - destruct i as [|i]; simpl in Hi |- *.
    + injection Hi as ->. now rewrite Hf.
    + rewrite (Hbefore 0 f0) by (simpl; auto; lia). simpl.
      apply (IH i f d Hi); auto.
      intros j g Hj Hg. apply (Hbefore (S j) g); [lia | exact Hg].
Qed.


Lemma any_of_true (keys : list string) (d : jsval) :
  any_of keys d = true <-> exists k, In k keys /\ truthy (d # k) = true.
Proof. unfold any_of. apply existsb_exists. Qed.

Lemma any_of_incl (keys keys' : list string) (d : jsval) :
  incl keys keys' -> any_of keys d = true -> any_of keys' d = true.
Proof.
  intros Hincl H. apply any_of_true in H as [k [Hk Ht]].
  apply any_of_true. exists k. auto.
Qed.

Lemma keys3_incl : incl keys3 keys1.
Proof. intros k Hk. simpl in *. tauto. Qed.

Lemma keys5_incl : incl keys5 keys3.
Proof. intros k Hk. simpl in *. tauto. Qed.

Lemma any_of_record (keys : list string) (d : jsval) :
  any_of keys d = true -> exists o, d = VObj o.
Proof.
  intros H. apply any_of_true in H as [k [_ Ht]].
  destruct d; simpl in Ht; try discriminate. eauto.
Qed.

(** The guard [d && typeof d === 'object' && (...)] holds exactly of the
    records that bind one of the keys to a truthy value. *)
Lemma accepts_iff (keys : list string) (d : jsval) :
  accepts keys d = true <->
  (exists o, d = VObj o) /\ exists k, In k keys /\ truthy (d # k) = true.
Proof.
  unfold accepts. split.
  - intros H. apply andb_prop in H as [_ H]. split.
    + now apply any_of_record with keys.
    + now apply any_of_true.
  - intros [[o ->] H]. simpl. now apply any_of_true.
Qed.

Lemma accepts_incl (keys keys' : list string) (d : jsval) :
  incl keys keys' -> accepts keys d = true -> accepts keys' d = true.
Proof.
  unfold accepts. intros Hincl H.
  apply andb_prop in H as [H1 H2]. rewrite H1. simpl.
  now apply any_of_incl with keys.
Qed.


Lemma when_Return (c : bool) (body : flow) (d : jsval) :
  when c body = Return d -> c = true /\ body = Return d.
Proof. destruct c; simpl; [auto | discriminate]. Qed.

Lemma orElse_Return (a b : flow) (d : jsval) :
  (a ;; b) = Return d -> a = Return d \/ (a = Continue /\ b = Return d).
Proof. destruct a; simpl; auto. Qed.

Ltac invert_flow :=
  repeat match goal with
  | H : when _ _ = Return _ |- _ => apply when_Return in H as [? H]
  | H : (_ ;; _) = Return _ |- _ => apply orElse_Return in H as [H|[? H]]
  | H : Return _ = Return _ |- _ => injection H as <-
  end.

(** What a strategy returns is a candidate its guard accepted, except
    for the record that strategy 5 builds around the message text. *)
Lemma strategy_returns (r d : jsval) (i : nat) (f : jsval -> flow) :
  nth_error strategies i = Some f ->
  f r = Return d ->
  accepts keys1 d = true \/
  (i = 4 /\ d = VObj [("message", r # "response" # "message")]).
Proof.
  intros Hi Hf.
  destruct i as [|[|[|[|[|[|i]]]]]]; simpl in Hi;
    [ .. | destruct i; discriminate ]; injection Hi as <-.
  - unfold strategy1 in Hf. invert_flow. auto.
  - unfold strategy2 in Hf. invert_flow. left.
    now apply accepts_incl with keys3; [apply keys3_incl|].
  - unfold strategy3 in Hf. invert_flow; left;
      now apply accepts_incl with keys3; [apply keys3_incl|].
  - unfold strategy4 in Hf. invert_flow. left.
    now apply accepts_incl with keys3; [apply keys3_incl|].
  - unfold strategy5 in Hf. invert_flow; [left | right; auto].
    apply accepts_incl with keys5; auto.
    intros k Hk. apply keys3_incl, keys5_incl, Hk.
  - unfold strategy6 in Hf. invert_flow. left.
    now apply accepts_incl with keys3; [apply keys3_incl|].
Qed.

Lemma first_of_Return (fs : list (jsval -> flow)) (r d : jsval) :
  first_of fs r = Return d ->
  exists i f, nth_error fs i = Some f /\ f r = Return d.
Proof.
  induction fs as [|f0 fs IH]; simpl; [discriminate|].
  intros H. apply orElse_Return in H as [H|[_ H]].
  - now exists 0, f0.
  - destruct (IH H) as (i & f & Hi & Hf). now exists (S i), f.
Qed.

(** The resolver returns [null] or a record. *)
Lemma parseAgentResponse_snapshot (r : jsval) :
  parseAgentResponse r = VNull \/ exists o, parseAgentResponse r = VObj o.
Proof.
  rewrite parseAgentResponse_first_of.
  destruct (truthy r); auto.
  destruct (first_of strategies r) as [d|] eqn:E; simpl; auto.
  right. apply first_of_Return in E as (i & f & Hi & Hf).
  destruct (strategy_returns r d i f Hi Hf) as [H|[_ ->]]; eauto.
  apply accepts_iff in H. tauto.
Qed.

Lemma parseAgentResponse_truthy (r : jsval) :
  truthy (parseAgentResponse r) = false -> parseAgentResponse r = VNull.
Proof.
  destruct (parseAgentResponse_snapshot r) as [H|[o H]]; rewrite H; auto.
  discriminate.
Qed.

Lemma parseAgentResponse_wins (r : jsval) (i : nat) (f : jsval -> flow)
  (d : jsval) :
  truthy r = true ->
  nth_error strategies i = Some f ->
  (forall j g, j < i -> nth_error strategies j = Some g -> g r = Continue) ->
  f r = Return d ->
  parseAgentResponse r = d.
Proof.
  intros Hr Hi Hbefore Hf.
  rewrite parseAgentResponse_first_of, Hr.
  now rewrite (first_of_wins strategies r i f d Hi Hbefore Hf).
Qed.



Lemma get_truthy_source (v : jsval) (k : string) :
  truthy (v # k) = true -> exists o, v = VObj o.
Proof. destruct v; simpl; try discriminate. eauto. Qed.





(** Strategy 5 is only reached with a falsy [response.message]: a truthy
    one makes strategy 4 return the [response] record. *)
Lemma strategy5_shadowed (r : jsval) :
  truthy (r # "response" # "message") = true ->
  strategy4 r = Return (r # "response").
Proof.
  intros H. destruct (get_truthy_source _ _ H) as [o Ho].
  unfold strategy4. rewrite Ho in *.
  change (tryParseJSON (VObj o)) with (VObj o).
  replace (accepts keys3 (VObj o)) with true; [reflexivity|].
  symmetry. apply accepts_iff. split; eauto.
  exists "message". simpl. tauto.
Qed.

(** What the resolver does with a record known by [inventoryItems]
    alone: under [response.result] it is returned (strategy 1); as the
    [text] below it, or as [raw_response], no strategy returns it. *)
Lemma inventory_only_elsewhere :
  let d := VObj [("inventoryItems", VArr [exampleItem])] in
  parseAgentResponse (VObj [("response", VObj [("result", d)])]) = d /\
  parseAgentResponse
    (VObj [("response", VObj [("result", VObj [("text", d)])])]) = VNull /\
  parseAgentResponse (VObj [("raw_response", d)]) = VNull.
Proof. cbv zeta. repeat split; reflexivity. Qed.






(** ** The message extractor *)

Lemma Z_to_string_nonempty (z : Z) : Z_to_string z <> EmptyString.
Proof.
  unfold Z_to_string. destruct (Z.to_int z) as [d|d]; simpl.
  - destruct d; discriminate.
  - discriminate.
Qed.

Lemma append_nonempty_l (a b : string) :
  a <> EmptyString -> (a ++ b)%string <> EmptyString.
Proof. destruct a; simpl; [congruence | discriminate]. Qed.

Lemma JSON_stringify_nonempty (v : jsval) (s : string) :
  JSON_stringify v = Some s -> s <> EmptyString.
Proof.
  destruct v; simpl; try discriminate; intros H; injection H as <-;
    try discriminate.
  - now destruct b.
  - unfold number_to_string. destruct (exponent n =? 0)%Z.
    + apply Z_to_string_nonempty.
    + apply append_nonempty_l, Z_to_string_nonempty.
Qed.

Lemma stringified_truthy (v : jsval) :
  truthy v = true -> truthy (stringified v) = true.
Proof.
  intros Hv. unfold stringified. destruct (is_string v); auto.
  destruct (JSON_stringify v) as [s|] eqn:E.
  - simpl. apply JSON_stringify_nonempty in E.
    destruct (s =? EmptyString) eqn:E'; auto.
    apply String.eqb_eq in E'. contradiction.
  - destruct v; simpl in E; discriminate.
Qed.

Lemma stringified_string (v : jsval) :
  truthy v = true -> exists s, stringified v = VStr s.
Proof.
  intros Hv. unfold stringified. destruct v; simpl in *; eauto;
    discriminate.
Qed.

(** The extractor tries its five sources in order and returns the first
    truthy one. *)
Lemma extractMessage_order (r : jsval) :
  let parsed := parseAgentResponse r in
  let resp := r # "response" in
  extractMessageFromResult r =
    if truthy (parsed # "message") then parsed # "message"
    else if truthy (resp # "message") then resp # "message"
    else if truthy (resp # "result" # "text")
         then stringified (resp # "result" # "text")
    else if truthy (resp # "result" # "message")
         then resp # "result" # "message"
    else VStr fallback_message.
Proof. reflexivity. Qed.

(** Whatever the envelope, the extractor returns a truthy value; a
    string it returns is therefore never empty. *)
Lemma extractMessage_truthy (r : jsval) :
  truthy (extractMessageFromResult r) = true.
Proof.
  unfold extractMessageFromResult. cbv zeta.
  repeat match goal with
  | |- truthy (if truthy ?v then _ else _) = true =>
      let E := fresh "E" in destruct (truthy v) eqn:E; auto
  end.
  now apply stringified_truthy.
Qed.

Lemma extractMessage_never_empty (r : jsval) :
  extractMessageFromResult r <> VStr EmptyString.
Proof.
  intros H. pose proof (extractMessage_truthy r) as Ht.
  rewrite H in Ht. discriminate.
Qed.

(** When the three [message] fields the extractor may return are
    strings or falsy, as the declared types have it, the result is a
    non-empty string. *)
Lemma extractMessage_string_when_typed (r : jsval) :
  let parsed := parseAgentResponse r in
  let resp := r # "response" in
  (forall v, In v [parsed # "message"; resp # "message";
                   resp # "result" # "message"] ->
             truthy v = true -> is_string v = true) ->
  exists s, extractMessageFromResult r = VStr s /\ s <> EmptyString.
Proof.
  intros parsed resp Htyped.
  assert (Hstr : forall v, truthy v = true -> is_string v = true ->
                           exists s, v = VStr s /\ s <> EmptyString).
  { intros v Ht Hs. destruct v; try discriminate.
    exists s. split; auto. intros ->. discriminate. }
  rewrite extractMessage_order. fold parsed resp.
  destruct (truthy (parsed # "message")) eqn:E1.
  { apply Hstr; auto. apply Htyped; simpl; auto. }
  destruct (truthy (resp # "message")) eqn:E2.
  { apply Hstr; auto. apply Htyped; simpl; auto. }
  destruct (truthy (resp # "result" # "text")) eqn:E3.
  { destruct (stringified_string _ E3) as [t Ht].
    exists t. split; auto. intros ->.
    pose proof (stringified_truthy _ E3) as Hy. rewrite Ht in Hy.
    discriminate. }
  destruct (truthy (resp # "result" # "message")) eqn:E4.
  { apply Hstr; auto. apply Htyped; simpl; auto. }
  exists fallback_message. split; [reflexivity | discriminate].
Qed.

Lemma extractMessage_empty_envelope :
  extractMessageFromResult (VObj []) = VStr fallback_message /\
  parseAgentResponse (VObj []) = VNull.
Proof. split; reflexivity. Qed.

(** C7, at an envelope on which it fails.  The agent answers with a
    [message] that is a number: the resolver accepts the [response]
    record (strategy 4), and the extractor returns the number 42, which
    is not a string. *)
Theorem extractMessage_returns_number :
  let r := VObj [("success", VBool true);
                 ("response", VObj [("message", VNum (int 42))])] in
  extractMessageFromResult r = VNum (int 42) /\
  is_string (extractMessageFromResult r) = false /\
  (forall s, extractMessageFromResult r <> VStr s).
Proof.
  cbv zeta. repeat split. intros s. vm_compute. discriminate.
Qed.

(** ** The dashboard state store *)

Lemma awaited_success (result : jsval) :
  truthy (result # "success") = true ->
  awaited (Fulfilled result) = inr result.
Proof.
  intros H. destruct (get_truthy_source _ _ H) as [o ->]. reflexivity.
Qed.

Lemma fetch_settle_agentData (result : jsval) (now : Z) (st : PageState) :
  truthy (result # "success") = true ->
  agentData (fetchDashboard_settle (Fulfilled result) now st) =
    if truthy (parseAgentResponse result)
    then parseAgentResponse result else agentData st.
Proof.
  intros H. unfold fetchDashboard_settle.
  rewrite (awaited_success _ H), H. cbv zeta.
  destruct (truthy (parseAgentResponse result)); [|reflexivity].
  destruct (truthy (parseAgentResponse result # "message")); reflexivity.
Qed.

Lemma chat_settle_agentData (result : jsval) (now : Z) (st : PageState) :
  truthy (result # "success") = true ->
  agentData (sendChat_settle (Fulfilled result) now st) =
    merge (agentData st) (parseAgentResponse result).
Proof.
  intros H. unfold sendChat_settle, merge.
  rewrite (awaited_success _ H), H. cbv zeta.
  destruct (truthy (parseAgentResponse result)); reflexivity.
Qed.

Lemma chat_settle_message (result : jsval) (now : Z) (st : PageState) :
  truthy (result # "success") = true ->
  chatMessages (sendChat_settle (Fulfilled result) now st) =
    chatMessages st ++
    [mkChatMessage agent
       (if truthy (parseAgentResponse result)
        then coalesce (parseAgentResponse result # "message")
                      (extractMessageFromResult result)
        else extractMessageFromResult result) now].
Proof.
  intros H. unfold sendChat_settle.
  rewrite (awaited_success _ H), H. cbv zeta.
  destruct (truthy (parseAgentResponse result)); reflexivity.
Qed.

(** C2 (as amended).  On a successful chat send the raw result goes
    through the resolver, the resolved snapshot is merged into the
    stored one by the non-destructive policy, so that a list field the
    resolved snapshot lacks keeps its stored value, and the agent's chat
    line is the resolved [message] or else the extracted message.  On a
    successful dashboard fetch, initial or refresh, the resolved
    snapshot, when there is one, replaces the stored snapshot
    wholesale. *)
Theorem successful_call_updates_snapshot
  (st : PageState) (result : jsval) (now : Z) :
  truthy (result # "success") = true ->
  let parsed := parseAgentResponse result in
  agentData (sendChat_settle (Fulfilled result) now st)
    = merge (agentData st) parsed /\
  (is_snapshot (agentData st) = true ->
   forall k, In k listFields -> nonempty_array (parsed # k) = false ->
     agentData (sendChat_settle (Fulfilled result) now st) # k
       = agentData st # k) /\
  chatMessages (sendChat_settle (Fulfilled result) now st)
    = chatMessages st ++
      [mkChatMessage agent
         (if truthy parsed
          then coalesce (parsed # "message") (extractMessageFromResult result)
          else extractMessageFromResult result) now] /\
  agentData (fetchDashboard_settle (Fulfilled result) now st)
    = (if truthy parsed then parsed else agentData st).
Proof.
  intros H parsed. subst parsed. split; [|split; [|split]].
  - now apply chat_settle_agentData.
  - intros HS k Hk Hl. rewrite chat_settle_agentData by assumption.
    rewrite merge_get_list by assumption. now rewrite Hl.
  - now apply chat_settle_message.
  - now apply fetch_settle_agentData.
Qed.

Lemma loadedState_eq :
  loadedState =
    {| agentData := VObj [("inventoryItems", VArr [exampleItem]);
                          ("message", VStr "Gloves are low.")];
       loading := false; error := VNull; activeAgentId := None;
       chatMessages := [userTurn; agentTurn];
       chatInput := EmptyString; chatLoading := false |}.
Proof. reflexivity. Qed.

Lemma run_all_reachable (ops : list operation) (st : PageState) :
  reachable st -> reachable (run_all ops st).
Proof.
  revert st. induction ops as [|op ops IH]; intros st H; simpl; auto.
  apply IH. now constructor.
Qed.

Lemma loadedState_reachable : reachable loadedState.
Proof. apply run_all_reachable. constructor. Qed.

Lemma successful_call_updates_snapshot_witness :
  agentData (sendChat_settle (Fulfilled summaryOnly) 12 loadedState)
    # "inventoryItems" = VArr [exampleItem].
Proof.
  destruct (successful_call_updates_snapshot loadedState summaryOnly 12
              eq_refl) as (_ & H & _).
  rewrite (H eq_refl "inventoryItems"); [reflexivity | | reflexivity].
  simpl. tauto.
Defined.

(** C2 as stated fails on the dashboard fetch: a successful refresh
    whose resolved snapshot has no [inventoryItems] drops the stored
    [inventoryItems]. *)
Lemma refresh_drops_inventory :
  truthy (summaryOnly # "success") = true /\
  parseAgentResponse summaryOnly = VObj [("message", VStr "Fresh summary")] /\
  agentData loadedState # "inventoryItems" = VArr [exampleItem] /\
  agentData (fetchDashboard_settle (Fulfilled summaryOnly) 12 loadedState)
    # "inventoryItems" = VUndef /\
  agentData (fetchDashboard_settle (Fulfilled summaryOnly) 12 loadedState)
    # "inventoryItems" <> agentData loadedState # "inventoryItems".
Proof. repeat split; try reflexivity. vm_compute. discriminate. Qed.

(** C4 (as amended).  Every failure path is fail-static as to the data.
    When the call throws, reports failure or resolves to no snapshot,
    both handlers leave the stored snapshot as it was and no outcome
    escapes the [try].  The fetch leaves the transcript alone and sets
    [error] to the thrown error's message (a fixed text for a thrown
    value that is no [Error]), to [result.error] when that is neither
    [null] nor [undefined] and a fixed text otherwise, and on a
    resolution miss to a fixed text.  The chat send appends one agent
    line with the like content, on a resolution miss the extracted
    fallback text, which is truthy.  The error banner is shown only for
    a truthy [error]: it stays hidden when the thrown error's message or
    [result.error] is the empty string or another falsy value, and
    rendering it throws when [result.error] is a record. *)
Theorem failure_is_fail_static (o : settled) (now : Z) (st : PageState) :
  failure o ->
  let fetched := fetchDashboard_settle o now st in
  let sent := sendChat_settle o now st in
  agentData fetched = agentData st /\
  agentData sent = agentData st /\
  chatMessages fetched = chatMessages st /\
  exists text,
    chatMessages sent = chatMessages st ++ [mkChatMessage agent text now] /\
    nullish (error fetched) = false /\
    nullish text = false /\
    (forall e, awaited o = inl e ->
       error fetched = messageOf e "Network error" /\
       text = messageOf e "Network error.") /\
    (forall result, awaited o = inr result ->
       truthy (result # "success") = false ->
       error fetched
         = coalesce (result # "error")
                    (VStr "Agent call failed. Please retry.") /\
       text = coalesce (result # "error")
                       (VStr "Sorry, something went wrong.")) /\
    (forall result, awaited o = inr result ->
       truthy (result # "success") = true ->
       error fetched
         = VStr "Could not parse agent response. Try asking a question in the chat." /\
       text = extractMessageFromResult result /\
       truthy text = true) /\
    (errorBanner (error fetched) = Some false <->
       awaited o = inl (ErrorInstance EmptyString) \/
       exists result,
         awaited o = inr result /\
         truthy (result # "success") = false /\
         nullish (result # "error") = false /\
         truthy (result # "error") = false) /\
    (errorBanner (error fetched) = None <->
       exists result,
         awaited o = inr result /\
         truthy (result # "success") = false /\
         valid_child (result # "error") = false).
Proof.
  intros Hf. cbv zeta. unfold fetchDashboard_settle, sendChat_settle.
  destruct Hf as [o e He | o result Hr Hs | o result Hr Hs Hp].
  - rewrite He. simpl. repeat split; auto.
    eexists. split; [reflexivity|].
    split; [now destruct e|]. split; [now destruct e|].
    split; [intros e' E; injection E as <-; auto|].
    split; [discriminate|]. split; [discriminate|]. split.
    + split.
      * destruct e as [m|]; [|discriminate].
        destruct m; [now left|discriminate].
      * intros [E|(result & E & _)]; [|discriminate].
        injection E as ->. reflexivity.
    + split.
      * now destruct e as [[|a m]|].
      * intros (result & E & _). discriminate.
  - rewrite Hr, Hs. simpl.
    assert (Hn : forall d, nullish d = false ->
                           nullish (coalesce (result # "error") d) = false).
    { intros d Hd. unfold coalesce.
      destruct (nullish (result # "error")) eqn:E; auto. }
    repeat split; auto.
    eexists. split; [reflexivity|].
    split; [now apply Hn|]. split; [now apply Hn|].
    split; [discriminate|].
    split; [intros r E _; injection E as <-; auto|].
    split; [intros r E Ht; injection E as <-; congruence|]. split.
    + unfold errorBanner, coalesce. split.
      * intros H. right. exists result.
        destruct (nullish (result # "error")) eqn:En; [discriminate|].
        destruct (truthy (result # "error")) eqn:Et; auto.
        destruct (valid_child (result # "error")); discriminate.
      * intros [E|(r & E & _ & En & Et)]; [discriminate|].
        injection E as <-. now rewrite En, Et.
    + unfold errorBanner, coalesce. split.
      * intros H. exists result.
        destruct (nullish (result # "error")) eqn:En; [discriminate|].
        destruct (truthy (result # "error")); [|discriminate].
        destruct (valid_child (result # "error")); [discriminate|auto].
      * intros (r & E & _ & Hv). injection E as <-.
        assert (Hx : nullish (result # "error") = false /\
                     truthy (result # "error") = true).
        { destruct (result # "error"); try discriminate; auto. }
        destruct Hx as [En Et]. now rewrite En, Et, Hv.
  - rewrite Hr, Hs, Hp. simpl.
    pose proof (extractMessage_truthy result) as Ht.
    repeat split; auto.
    eexists. split; [reflexivity|].
    split; [reflexivity|].
    split; [destruct (extractMessageFromResult result); auto; discriminate|].
    split; [discriminate|].
    split; [intros r E Hf; injection E as <-; congruence|].
    split; [intros r E _; injection E as <-; auto|]. split.
    + split; [discriminate|].
      intros [E|(r & E & Hf & _)]; [discriminate|].
      injection E as <-. congruence.
    + split; [discriminate|].
      intros (r & E & Hf & _). injection E as <-. congruence.
Qed.

Lemma failure_is_fail_static_witness :
  agentData (fetchDashboard_settle
               (Rejected (ErrorInstance "Failed to fetch")) 12 loadedState)
    = agentData loadedState /\
  agentData (sendChat_settle
               (Fulfilled (VObj [("success", VBool true);
                                 ("response", VStr "no data today")]))
               12 loadedState)
    = agentData loadedState.
Proof.
  split.
  - apply (failure_is_fail_static _ 12 loadedState).
    now apply failure_thrown with (e := ErrorInstance "Failed to fetch").
  - apply (failure_is_fail_static _ 12 loadedState).
    eapply failure_miss; reflexivity.
Defined.

(** C4 as stated fails.  The transport reports failure with an empty
    [error] text: the error recorded is the empty string, for which no
    banner is shown, and the agent line appended by the chat send is an
    empty bubble; so no error condition or fallback text is recorded.
    The same holds for a thrown [Error] with an empty message.  With a
    record as [error], rendering the banner or the bubble throws. *)
Lemma empty_error_not_shown :
  failure (Fulfilled emptyError) /\
  error (fetchDashboard_settle (Fulfilled emptyError) 12
           (fetchDashboard_start loadedState)) = VStr EmptyString /\
  errorBanner (VStr EmptyString) = Some false /\
  chatMessages (sendChat_settle (Fulfilled emptyError) 12 loadedState)
    = chatMessages loadedState
      ++ [mkChatMessage agent (VStr EmptyString) 12] /\
  renderBubble (mkChatMessage agent (VStr EmptyString) 12)
    = Some (Rendered None) /\
  failure (Rejected (ErrorInstance EmptyString)) /\
  error (fetchDashboard_settle (Rejected (ErrorInstance EmptyString)) 12
           (fetchDashboard_start loadedState)) = VStr EmptyString /\
  failure (Fulfilled recordError) /\
  errorBanner
    (error (fetchDashboard_settle (Fulfilled recordError) 12
              (fetchDashboard_start loadedState))) = None /\
  chatMessages (sendChat_settle (Fulfilled recordError) 12 loadedState)
    = chatMessages loadedState
      ++ [mkChatMessage agent (VObj [("code", VNum (int 500))]) 12] /\
  renderBubble
    (mkChatMessage agent (VObj [("code", VNum (int 500))]) 12) = None.
Proof.
  repeat split.
  - now apply failure_unsuccessful with (result := emptyError).
  - now apply failure_thrown with (e := ErrorInstance EmptyString).
  - now apply failure_unsuccessful with (result := recordError).
Qed.

(** ** The chat transcript *)

Lemma transcript_extended (op : operation) (st : PageState) :
  replaces_transcript op = false ->
  exists suffix, chatMessages (run op st) = chatMessages st ++ suffix.
Proof.
  destruct op as [|o now|now|o now|text]; simpl; intros H.
  - exists []. now rewrite app_nil_r.
  - unfold fetchDashboard_settle.
    destruct (awaited o) as [e|result]; simpl.
    + exists []. now rewrite app_nil_r.
    + destruct (truthy (result # "success")); simpl in *.
      * destruct (truthy (parseAgentResponse result)); simpl in *.
        -- rewrite H. exists []. now rewrite app_nil_r.
        -- exists []. now rewrite app_nil_r.
      * exists []. now rewrite app_nil_r.
  - unfold sendChat_start. destruct (sendChat_proceeds st); simpl.
    + eexists. reflexivity.
    + exists []. now rewrite app_nil_r.
  - unfold sendChat_settle.
    destruct (awaited o) as [e|result]; simpl.
    + eexists. reflexivity.
    + destruct (truthy (result # "success")); simpl.
      * destruct (truthy (parseAgentResponse result)); simpl;
          eexists; reflexivity.
      * eexists. reflexivity.
  - exists []. now rewrite app_nil_r.
Qed.

(** The stored snapshot is [null] or a record in every state of a
    session. *)
Lemma run_agentData_snapshot (op : operation) (st : PageState) :
  is_snapshot (agentData st) = true ->
  is_snapshot (agentData (run op st)) = true.
Proof.
  intros H. destruct op as [|o now|now|o now|text]; simpl; auto.
  - unfold fetchDashboard_settle.
    destruct (awaited o) as [e|result]; simpl; auto.
    destruct (truthy (result # "success")); simpl; auto.
    destruct (truthy (parseAgentResponse result)) eqn:Hp; simpl; auto.
    assert (Hs : is_snapshot (parseAgentResponse result) = true).
    { destruct (parseAgentResponse_snapshot result) as [E|[x E]];
        now rewrite E. }
    destruct (truthy (parseAgentResponse result # "message")); exact Hs.
  - unfold sendChat_start. destruct (sendChat_proceeds st); auto.
  - unfold sendChat_settle.
    destruct (awaited o) as [e|result]; simpl; auto.
    destruct (truthy (result # "success")); simpl; auto.
    destruct (truthy (parseAgentResponse result)); simpl; auto.
Qed.

Lemma reachable_snapshot (st : PageState) :
  reachable st -> is_snapshot (agentData st) = true.
Proof.
  induction 1 as [|op st _ IH]; [reflexivity|].
  now apply run_agentData_snapshot.
Qed.

(** C9, at an operation on which it fails.  After one chat exchange the
    user presses Refresh; the fetch settles with a summary message, and
    the transcript is replaced by that single message: the two earlier
    messages are gone.  Likewise a question sent while the initial fetch
    is in flight is removed when that fetch settles. *)
Theorem refresh_replaces_transcript :
  reachable loadedState /\
  chatMessages loadedState = [userTurn; agentTurn] /\
  chatMessages (run (FetchSettle (Fulfilled summaryOnly) 12) loadedState)
    = [mkChatMessage agent (VStr "Fresh summary") 12] /\
  (~ exists suffix,
      chatMessages (run (FetchSettle (Fulfilled summaryOnly) 12) loadedState)
        = chatMessages loadedState ++ suffix) /\
  chatMessages (run_all earlyQuestion initialState)
    = [mkChatMessage user (VStr "Anything low?") 3] /\
  chatMessages (run (FetchSettle (Fulfilled summaryOnly) 4)
                    (run_all earlyQuestion initialState))
    = [mkChatMessage agent (VStr "Fresh summary") 4].
Proof.
  split; [exact loadedState_reachable|].
  split; [reflexivity|]. split; [reflexivity|].
  split; [|split; reflexivity].
  intros [suffix H]. vm_compute in H. discriminate.
Qed.

Lemma merge_order_tolerant_witness :
  merge (merge (VObj [("salesData", VArr [VStr "old"])])
               (VObj [("salesData", VArr [])]))
        (VObj [("salesData", VArr [exampleItem])]) # "salesData"
    = VArr [exampleItem] /\
  merge (VObj [("orders", VArr [exampleItem])])
        (VObj [("orders", VArr []); ("message", VStr "none")]) # "orders"
    = VArr [exampleItem].
Proof.
  destruct (merge_order_tolerant
              (VObj [("salesData", VArr [VStr "old"])]) exampleItem)
    as (_ & H1 & H2).
  split.
  - exact H1.
  - rewrite H2; [reflexivity | simpl; tauto | reflexivity].
Defined.

(* ================================================================== *)
(** * Further properties *)
(* ================================================================== *)

(** ** The resolver, beyond its acceptance rule *)

Lemma strategy5_continues (r : jsval) :
  strategy4 r = Continue -> strategy5 r = Continue.
Proof.
  intros H4. unfold strategy5.
  destruct (truthy (r # "response" # "message")) eqn:E; [|reflexivity].
  rewrite (strategy5_shadowed r E) in H4. discriminate.
Qed.

(** X1.  Strategy 5 never decides: the resolver computes what it would
    compute with strategies 1, 2, 3, 4 and 6 alone. *)
Theorem resolver_ignores_strategy5 (r : jsval) :
  parseAgentResponse r =
    if negb (truthy r) then VNull
    else finish (strategy1 r ;; strategy2 r ;; strategy3 r ;;
                 strategy4 r ;; strategy6 r).
Proof.
  unfold parseAgentResponse. destruct (negb (truthy r)); [reflexivity|].
  destruct (strategy1 r); [reflexivity|].
  destruct (strategy2 r); [reflexivity|].
  destruct (strategy3 r); [reflexivity|].
  destruct (strategy4 r) eqn:E4; [reflexivity|].
  now rewrite (strategy5_continues r E4).
Qed.

(** X2.  What the resolver returns is [null] or one of the values it
    found in the envelope or decoded from it, and then a record with a
    truthy [message], [metrics], [lowStockAlerts] or [inventoryItems]. *)
Theorem resolver_returns_candidate (r : jsval) :
  parseAgentResponse r = VNull \/
  (In (parseAgentResponse r) (candidates r) /\
   accepts keys1 (parseAgentResponse r) = true).
Proof.
  unfold parseAgentResponse. destruct (negb (truthy r)); [now left|].
  unfold candidates. cbv zeta.
  destruct (strategy1 r) as [d|] eqn:E1.
  { right. unfold strategy1 in E1. invert_flow. simpl. tauto. }
  destruct (strategy2 r) as [d|] eqn:E2.
  { right. unfold strategy2 in E2. invert_flow. simpl. split; [tauto|].
    now apply accepts_incl with keys3; [apply keys3_incl|]. }
  destruct (strategy3 r) as [d|] eqn:E3.
  { right. unfold strategy3 in E3. invert_flow; simpl; (split; [tauto|]);
      now apply accepts_incl with keys3; [apply keys3_incl|]. }
  destruct (strategy4 r) as [d|] eqn:E4.
  { right. unfold strategy4 in E4. invert_flow. simpl. split; [tauto|].
    now apply accepts_incl with keys3; [apply keys3_incl|]. }
  rewrite (strategy5_continues r E4).
  destruct (strategy6 r) as [d|] eqn:E6; [|now left].
  right. unfold strategy6 in E6. invert_flow. simpl. split; [tauto|].
  now apply accepts_incl with keys3; [apply keys3_incl|].
Qed.

(** X3.  The resolver only looks inside a record: for an envelope that
    is anything else (JSON text, an array, a number) the result is
    [null]; the envelope itself is never decoded. *)
Theorem resolver_needs_record (r : jsval) :
  (forall o, r <> VObj o) -> parseAgentResponse r = VNull.
Proof.
  intros H. destruct r as [| |b|n|s|items|props];
    try (exfalso; now apply (H props));
    unfold parseAgentResponse, strategy6, accepts; simpl;
    rewrite ?andb_false_r; try reflexivity;
    repeat match goal with
    | |- context [if ?c then _ else _] => destruct c
    end; reflexivity.
Qed.

Lemma tryParseJSON_parsed (s : string) (v : jsval) :
  JSON_parse s = Some v -> tryParseJSON (VStr s) = v.
Proof.
  intros H. unfold tryParseJSON.
  rewrite truthy_VStr; [simpl; now rewrite H|].
  intros ->. discriminate.
Qed.

(** X4.  A doubly encoded [raw_response]: when [raw_response] is JSON
    text of a record whose [response] is again JSON text of dashboard
    data, and strategies 1 and 2 have not returned, the resolver
    returns the inner data. *)
Theorem raw_response_double_encoded
  (r : jsval) (outer inner : string) (o : object) (d : jsval) :
  r # "raw_response" = VStr outer ->
  JSON_parse outer = Some (VObj o) ->
  lookup "response" o = VStr inner ->
  JSON_parse inner = Some d ->
  accepts keys3 d = true ->
  strategy1 r = Continue ->
  strategy2 r = Continue ->
  parseAgentResponse r = d.
Proof.
  intros Hraw Ho Hin Hd Hacc H1 H2.
  pose proof tryParseJSON_parsed as Hparse.
  assert (Hr : truthy r = true).
  { destruct r; simpl in Hraw; try discriminate. reflexivity. }
  apply (parseAgentResponse_wins r 2 strategy3); auto.
  - intros j g Hj Hg. destruct j as [|[|j]]; simpl in Hg; try lia;
      injection Hg as <-; assumption.
  - unfold strategy3. rewrite Hraw.
    rewrite (Hparse outer (VObj o) Ho).
    assert (Hne : outer <> EmptyString).
    { intros ->. discriminate. }
    rewrite (truthy_VStr _ Hne). simpl truthy. simpl when.
    rewrite Hin. change (is_string (VStr inner)) with true. cbv iota.
    rewrite (Hparse inner d Hd). rewrite Hacc. reflexivity.
Qed.

(** ** The handlers, whatever the call's outcome *)

Lemma coalesce_not_nullish (a b : jsval) :
  nullish b = false -> nullish (coalesce a b) = false.
Proof. unfold coalesce. destruct (nullish a) eqn:E; auto. Qed.

Lemma truthy_not_nullish (v : jsval) :
  truthy v = true -> nullish v = false.
Proof. destruct v; simpl; auto; discriminate. Qed.

(** X5.  Every chat call that settles, however it settles, adds exactly
    one agent line after the messages already there, with a content
    that is neither [null] nor [undefined], and ends the loading
    state. *)
Theorem chat_settle_adds_one_line (o : settled) (now : Z) (st : PageState) :
  exists text,
    chatMessages (sendChat_settle o now st)
      = chatMessages st ++ [mkChatMessage agent text now] /\
    nullish text = false /\
    chatLoading (sendChat_settle o now st) = false /\
    activeAgentId (sendChat_settle o now st) = None.
Proof.
  unfold sendChat_settle.
  destruct (awaited o) as [e|result]; simpl.
  - eexists. repeat split. now destruct e.
  - destruct (truthy (result # "success")); simpl.
    + destruct (truthy (parseAgentResponse result)); simpl.
      * eexists. repeat split.
        apply coalesce_not_nullish, truthy_not_nullish,
          extractMessage_truthy.
      * eexists. repeat split.
        apply truthy_not_nullish, extractMessage_truthy.
    + eexists. repeat split. now apply coalesce_not_nullish.
Qed.

(** X6.  A dashboard fetch, from its start to its settling, ends in one
    of two ways and never silently: either the resolver found a
    snapshot, which is now the stored one, and no error is shown; or
    the stored snapshot is the one from before and an error value is
    set.  Either way the loading state is over. *)
Theorem fetch_replaces_or_reports (o : settled) (now : Z) (st : PageState) :
  let st' := fetchDashboard_settle o now (fetchDashboard_start st) in
  loading st' = false /\ activeAgentId st' = None /\
  ((exists result,
      awaited o = inr result /\
      truthy (parseAgentResponse result) = true /\
      agentData st' = parseAgentResponse result /\
      error st' = VNull)
   \/
   (agentData st' = agentData st /\ nullish (error st') = false)).
Proof.
  cbv zeta. unfold fetchDashboard_settle.
  destruct (awaited o) as [e|result] eqn:Ea; simpl.
  - repeat split. right. split; auto. now destruct e.
  - destruct (truthy (result # "success")); simpl.
    + destruct (truthy (parseAgentResponse result)) eqn:Ep; simpl.
      * destruct (truthy (parseAgentResponse result # "message"));
          simpl; repeat split; left; exists result; auto.
      * repeat split. right. auto.
    + repeat split. right. split; auto. now apply coalesce_not_nullish.
Qed.

(** X7.  [sendChat] sends nothing for an input made of white space only
    and nothing while a chat call is in flight: the state is left as it
    is.  Otherwise it clears the input and appends one user message
    whose text is the trimmed input, which is not empty and has no
    white space left to trim. *)
Theorem sendChat_start_guard (now : Z) (st : PageState) :
  (all_white (chatInput st) = true \/ chatLoading st = true ->
   sendChat_start now st = st) /\
  (all_white (chatInput st) = false ->
   chatLoading st = false ->
   let msg := trim (chatInput st) in
   chatMessages (sendChat_start now st)
     = chatMessages st ++ [mkChatMessage user (VStr msg) now] /\
   msg <> EmptyString /\ trim msg = msg /\
   chatInput (sendChat_start now st) = EmptyString /\
   chatLoading (sendChat_start now st) = true /\
   agentData (sendChat_start now st) = agentData st).
Proof.
  unfold sendChat_start, sendChat_proceeds. split.
  - intros [H|H].
    + apply trim_empty_iff in H. now rewrite H.
    + rewrite H. now rewrite andb_false_r.
  - intros Hs Hl. cbv zeta. rewrite Hl.
    assert (Hne : trim (chatInput st) <> EmptyString).
    { intros E. apply trim_empty_iff in E. congruence. }
    destruct (trim (chatInput st) =? EmptyString)%string eqn:E.
    + apply String.eqb_eq in E. contradiction.
    + simpl. repeat split; auto. apply trim_idem.
Qed.

(** ** The merger, beyond single fields *)

Lemma assign_bound (k : string) (v : jsval) (o : object) :
  lookup k o = v -> v <> VUndef -> assign k v o = o.
Proof.
  induction o as [|[k' v'] o IH]; simpl; intros H Hv.
  - congruence.
  - destruct (k =? k') eqn:E.
    + apply String.eqb_eq in E. now subst.
    + now rewrite IH.
Qed.

Lemma truthy_defined (v : jsval) : truthy v = true -> v <> VUndef.
Proof. intros H ->. discriminate. Qed.

Lemma nonempty_array_defined (v : jsval) :
  nonempty_array v = true -> v <> VUndef.
Proof. intros H ->. discriminate. Qed.

(** X8.  Merging the same incoming snapshot a second time changes
    nothing. *)
Theorem merge_idempotent (S I : jsval) :
  merge (merge S I) I = merge S I.
Proof.
  unfold merge. destruct (truthy I) eqn:HI; [|reflexivity].
  pose proof (mergeSnapshot_get I S) as Hget.
  remember (mergeSnapshot I S) as m eqn:Hm.
  assert (Hobj : exists o, m = VObj o).
  { subst m. unfold mergeSnapshot. eauto. }
  destruct Hobj as [o Ho]. rewrite Ho in Hget |- *. clear Hm Ho m.
  unfold mergeSnapshot. cbv zeta. simpl spread. f_equal.
  assert (Hmet : truthy (I # "metrics") = true ->
                 assign "metrics" (I # "metrics") o = o).
  { intros G. apply assign_bound; [|now apply truthy_defined].
    specialize (Hget "metrics"). simpl in Hget. now rewrite G in Hget. }
  assert (Hlow : nonempty_array (I # "lowStockAlerts") = true ->
                 assign "lowStockAlerts" (I # "lowStockAlerts") o = o).
  { intros G. apply assign_bound; [|now apply nonempty_array_defined].
    specialize (Hget "lowStockAlerts"). simpl in Hget.
    now rewrite G in Hget. }
  assert (Hinv : nonempty_array (I # "inventoryItems") = true ->
                 assign "inventoryItems" (I # "inventoryItems") o = o).
  { intros G. apply assign_bound; [|now apply nonempty_array_defined].
    specialize (Hget "inventoryItems"). simpl in Hget.
    now rewrite G in Hget. }
  assert (Hsal : nonempty_array (I # "salesData") = true ->
                 assign "salesData" (I # "salesData") o = o).
  { intros G. apply assign_bound; [|now apply nonempty_array_defined].
    specialize (Hget "salesData"). simpl in Hget. now rewrite G in Hget. }
  assert (Hord : nonempty_array (I # "orders") = true ->
                 assign "orders" (I # "orders") o = o).
  { intros G. apply assign_bound; [|now apply nonempty_array_defined].
    specialize (Hget "orders"). simpl in Hget. now rewrite G in Hget. }
  assert (Hmsg : truthy (I # "message") = true ->
                 assign "message" (I # "message") o = o).
  { intros G. apply assign_bound; [|now apply truthy_defined].
    specialize (Hget "message"). simpl in Hget. now rewrite G in Hget. }
  destruct (truthy (I # "metrics")); [rewrite Hmet by reflexivity|];
  (destruct (nonempty_array (I # "lowStockAlerts"));
     [rewrite Hlow by reflexivity|]);
  (destruct (nonempty_array (I # "inventoryItems"));
     [rewrite Hinv by reflexivity|]);
  (destruct (nonempty_array (I # "salesData"));
     [rewrite Hsal by reflexivity|]);
  (destruct (nonempty_array (I # "orders"));
     [rewrite Hord by reflexivity|]);
  (destruct (truthy (I # "message"));
     [rewrite Hmsg by reflexivity|]);
  reflexivity.
Qed.

Lemma has_key_assign (k k' : string) (v : jsval) (o : object) :
  has_key (VObj (assign k v o)) k' = (k =? k') || has_key (VObj o) k'.
Proof.
  induction o as [|[k0 v0] o IH]; simpl in *.
  - now rewrite orb_false_r.
  - destruct (k =? k0) eqn:E; simpl.
    + apply String.eqb_eq in E. subst k0.
      now destruct (k =? k').
    + rewrite IH. destruct (k0 =? k'), (k =? k'); reflexivity.
Qed.

Lemma has_key_cond_assign (c : bool) (f k : string) (v : jsval)
  (x : object) :
  has_key (VObj x) k = true ->
  has_key (VObj (if c then assign f v x else x)) k = true.
Proof.
  intros H. destruct c; auto. rewrite has_key_assign, H. apply orb_true_r.
Qed.

Lemma has_key_mergeSnapshot (parsed : jsval) (o : object) (k : string) :
  has_key (VObj o) k = true ->
  has_key (mergeSnapshot parsed (VObj o)) k = true.
Proof.
  intros H. unfold mergeSnapshot. cbv zeta. simpl spread.
  do 6 apply has_key_cond_assign. exact H.
Qed.

(** X9.  The merge never drops anything: every key of the stored
    record is still a key of the merged one, and a field other than
    [metrics], [message] and the four list fields keeps its value. *)
Theorem merge_drops_nothing (o : object) (I : jsval) (k : string) :
  (has_key (VObj o) k = true -> has_key (merge (VObj o) I) k = true) /\
  (~ In k ("metrics" :: "message" :: listFields) ->
   merge (VObj o) I # k = VObj o # k).
Proof.
  split.
  - intros H. unfold merge. destruct (truthy I); auto.
    now apply has_key_mergeSnapshot.
  - intros H. now apply merge_get_other.
Qed.

(** ** The extractor on well-typed envelopes *)

(** X10.  Whatever the envelope, the extractor returns neither
    [undefined] nor [null] nor the empty string nor any other falsy
    value. *)
Theorem extractMessage_never_blank (r : jsval) :
  truthy (extractMessageFromResult r) = true /\
  nullish (extractMessageFromResult r) = false /\
  extractMessageFromResult r <> VStr EmptyString.
Proof.
  pose proof (extractMessage_truthy r) as H. split; [exact H|]. split.
  - now apply truthy_not_nullish.
  - intros E. rewrite E in H. discriminate.
Qed.

(** ** What the page shows after a merge *)

Lemma data_get (S : jsval) (k : string) :
  is_snapshot S = true -> data S # k = S # k.
Proof. destruct S; simpl; auto; discriminate. Qed.

Lemma merge_is_snapshot (S I : jsval) :
  is_snapshot S = true -> is_snapshot (merge S I) = true.
Proof. intros H. unfold merge. now destruct (truthy I). Qed.

Lemma view_after_merge (S I : jsval) (k : string) :
  is_snapshot S = true -> In k listFields ->
  arrayOr (data (merge S I) # k) =
    if nonempty_array (I # k) then arrayOr (I # k)
    else arrayOr (data S # k).
Proof.
  intros HS Hk.
  rewrite !data_get by (auto using merge_is_snapshot).
  rewrite merge_get_list by assumption.
  now destruct (nonempty_array (I # k)).
Qed.

Lemma nonempty_array_length (v : jsval) :
  nonempty_array v = true -> (0 <? List.length (arrayOr v))%nat = true.
Proof. destruct v as [| | | | |[|x l]|]; simpl; auto; discriminate. Qed.

Lemma view_stays_nonempty (S I : jsval) (k : string) :
  is_snapshot S = true -> In k listFields ->
  (0 <? List.length (arrayOr (data S # k)))%nat = true ->
  (0 <? List.length (arrayOr (data (merge S I) # k)))%nat = true.
Proof.
  intros HS Hk H. rewrite view_after_merge by assumption.
  destruct (nonempty_array (I # k)) eqn:E; auto.
  now apply nonempty_array_length.
Qed.

(** X11.  A chat reply never empties the dashboard.  After the merge
    each of the four lists shown is the incoming list when that is a
    non-empty array and the list shown before otherwise; so a list that
    showed items still shows items, stored [metrics] stay truthy, and
    once the page has data it keeps having data. *)
Theorem chat_merge_keeps_views (S I : jsval) :
  is_snapshot S = true ->
  lowStockAlerts (merge S I) =
    (if nonempty_array (I # "lowStockAlerts")
     then arrayOr (I # "lowStockAlerts") else lowStockAlerts S) /\
  inventoryItems (merge S I) =
    (if nonempty_array (I # "inventoryItems")
     then arrayOr (I # "inventoryItems") else inventoryItems S) /\
  salesData (merge S I) =
    (if nonempty_array (I # "salesData")
     then arrayOr (I # "salesData") else salesData S) /\
  orders (merge S I) =
    (if nonempty_array (I # "orders")
     then arrayOr (I # "orders") else orders S) /\
  (truthy (metrics S) = true -> truthy (metrics (merge S I)) = true) /\
  (hasData S = true -> hasData (merge S I) = true).
Proof.
  intros HS.
  assert (Hm : truthy (metrics S) = true ->
               truthy (metrics (merge S I)) = true).
  { unfold metrics. rewrite !data_get by (auto using merge_is_snapshot).
    rewrite merge_get_metrics by assumption.
    now destruct (truthy (I # "metrics")) eqn:E. }
  unfold lowStockAlerts, inventoryItems, salesData, orders.
  repeat split; try (apply view_after_merge; [assumption | simpl; tauto]).
  - exact Hm.
  - unfold hasData, lowStockAlerts, inventoryItems, salesData, orders.
    intros H.
    repeat (apply orb_prop in H; destruct H as [H|H]).
    + now rewrite Hm.
    + rewrite (view_stays_nonempty S I "lowStockAlerts"); auto;
        [now rewrite !orb_true_r | simpl; tauto].
    + rewrite (view_stays_nonempty S I "inventoryItems"); auto;
        [now rewrite !orb_true_r | simpl; tauto].
    + rewrite (view_stays_nonempty S I "salesData"); auto;
        [now rewrite !orb_true_r | simpl; tauto].
    + rewrite (view_stays_nonempty S I "orders"); auto;
        [now rewrite !orb_true_r | simpl; tauto].
Qed.

(** ** Text helpers *)

Lemma lower_char_idem (c : ascii) : lower_char (lower_char c) = lower_char c.
Proof.
  unfold lower_char.
  destruct ((65 <=? nat_of_ascii c) && (nat_of_ascii c <=? 90))%nat eqn:E;
    [|now rewrite E].
  apply andb_prop in E as [E1 E2].
  apply Nat.leb_le in E1. apply Nat.leb_le in E2.
  rewrite nat_ascii_embedding by lia.
  replace ((nat_of_ascii c + 32 <=? 90)%nat) with false.
  - now rewrite andb_false_r.
  - symmetry. apply Nat.leb_gt. lia.
Qed.

Lemma toLowerCase_idem (s : string) :
  toLowerCase (toLowerCase s) = toLowerCase s.
Proof.
  induction s as [|c s IH]; simpl; auto.
  now rewrite lower_char_idem, IH.
Qed.

Lemma toLowerCase_empty (s : string) :
  (toLowerCase s =? EmptyString) = (s =? EmptyString).
Proof. now destruct s. Qed.

(** ** The inventory filter *)

Lemma filterThrowing_pure (keep : jsval -> option bool) (p : jsval -> bool)
  (l : list jsval) :
  (forall x, In x l -> keep x = Some (p x)) ->
  filterThrowing keep l = Some (filter p l).
Proof.
  induction l as [|x l IH]; intros H; simpl; auto.
  rewrite (H x) by (simpl; auto).
  rewrite IH by (intros y Hy; apply H; simpl; auto).
  reflexivity.
Qed.

Lemma filterThrowing_Some (keep : jsval -> option bool) (l r : list jsval) :
  filterThrowing keep l = Some r ->
  (forall x, In x l -> exists b, keep x = Some b) /\
  r = filter (fun x => match keep x with Some b => b | None => false end) l.
Proof.
  revert r. induction l as [|x l IH]; simpl; intros r H.
  - injection H as <-. split; [intros x []|reflexivity].
  - destruct (keep x) as [b|] eqn:Ex; [|discriminate].
    destruct (filterThrowing keep l) as [r'|]; [|discriminate].
    injection H as <-. destruct (IH r' eq_refl) as [Hall ->].
    split.
    + intros y [<-|Hy]; eauto.
    + reflexivity.
Qed.

(** X12.  With an empty search and both selectors on [All] the
    inventory table shows every item, in order, and the filter cannot
    throw, whatever the items are. *)
Theorem filteredInventory_unfiltered (items : list jsval) :
  filteredInventory EmptyString "All" "All" items = Some items.
Proof.
  unfold filteredInventory.
  rewrite (filterThrowing_pure _ (fun _ => true)).
  - f_equal. induction items as [|x l IH]; simpl; congruence.
  - reflexivity.
Qed.


Lemma lowered_Some (v : jsval) :
  nullish v = true \/ is_string v = true -> exists t, lowered v = Some t.
Proof.
  unfold lowered, coalesce. intros [H|H].
  - rewrite H. eauto.
  - destruct v; try discriminate. simpl. eauto.
Qed.

Lemma lowered_None (v : jsval) :
  lowered v = None <-> nullish v = false /\ is_string v = false.
Proof.
  unfold lowered, coalesce.
  destruct v; simpl; split; intros H; auto; try discriminate;
    destruct H; discriminate.
Qed.

(** X14.  The inventory filter cannot throw when every item's [product]
    and [sku] is a string or absent, and a search text is matched
    without regard to its letter case: searching for a text and for its
    lower-case form show the same rows. *)
Theorem filteredInventory_search (q c s : string) (items : list jsval) :
  ((forall x, In x items ->
      (nullish (x # "product") = true \/ is_string (x # "product") = true)
      /\ (nullish (x # "sku") = true \/ is_string (x # "sku") = true)) ->
   exists shown, filteredInventory q c s items = Some shown) /\
  filteredInventory (toLowerCase q) c s items
    = filteredInventory q c s items.
Proof.
  split.
  - intros H. unfold filteredInventory.
    induction items as [|x l IH]; simpl; eauto.
    destruct (H x) as [Hp Hs]; [simpl; auto|].
    destruct IH as [r Hr]; [intros y Hy; apply H; simpl; auto|].
    rewrite Hr.
    destruct (lowered_Some _ Hp) as [p Ep].
    destruct (lowered_Some _ Hs) as [k Ek].
    unfold inventoryMatch. cbv zeta. rewrite Ep, Ek.
    destruct (q =? EmptyString); [eauto|].
    destruct (includes p (toLowerCase q)); eauto.
  - unfold filteredInventory. f_equal.
    unfold inventoryMatch.
    now rewrite toLowerCase_empty, toLowerCase_idem.
Qed.

(** ** The category selector *)

Lemma sameValueZero_text (x : jsval) (t : string) :
  sameValueZero x (VStr t) = true -> x = VStr t.
Proof.
  destruct x; simpl; try discriminate.
  intros H. apply String.eqb_eq in H. now subst.
Qed.

Lemma uniqueFrom_In (seen l : list jsval) (x : jsval) :
  In x (uniqueFrom seen l) -> In x l.
Proof.
  revert seen. induction l as [|y l IH]; simpl; intros seen H; auto.
  destruct (existsb (sameValueZero y) seen).
  - right. now apply IH with seen.
  - destruct H as [H|H]; auto. right. now apply IH with (seen ++ [y]).
Qed.

(** A text of the list is in the set or was seen before. *)
Lemma uniqueFrom_keeps_text (seen l : list jsval) (t : string) :
  In (VStr t) l ->
  In (VStr t) (uniqueFrom seen l) \/ In (VStr t) seen.
Proof.
  revert seen. induction l as [|y l IH]; simpl; intros seen H; [tauto|].
  destruct (existsb (sameValueZero y) seen) eqn:E.
  - destruct H as [->|H]; [|now apply IH].
    right. apply existsb_exists in E as (z & Hz & Hs).
    destruct z; simpl in Hs; try discriminate.
    apply String.eqb_eq in Hs. now subst.
  - destruct H as [->|H]; [left; simpl; auto|].
    destruct (IH (seen ++ [y]) H) as [H'|H'].
    + left. simpl. auto.
    + apply in_app_or in H' as [H'|[<-|[]]]; [now right|].
      left. simpl. auto.
Qed.

(** No value of the set equals one seen before, nor an earlier one of
    the set. *)
Lemma uniqueFrom_fresh (seen l : list jsval) :
  (forall x, In x (uniqueFrom seen l) ->
             existsb (sameValueZero x) seen = false) /\
  ForallOrdPairs (fun a b => sameValueZero b a = false) (uniqueFrom seen l).
Proof.
  revert seen. induction l as [|y l IH]; intros seen; simpl.
  - split; [intros x []|constructor].
  - destruct (existsb (sameValueZero y) seen) eqn:E; [apply IH|].
    destruct (IH (seen ++ [y])) as [Hseen Hpairs]. split.
    + intros x [<-|Hx]; auto.
      specialize (Hseen x Hx). rewrite existsb_app in Hseen.
      now apply orb_false_elim in Hseen.
    + constructor; auto. apply Forall_forall. intros x Hx.
      specialize (Hseen x Hx). rewrite existsb_app in Hseen.
      apply orb_false_elim in Hseen as [_ Hy]. simpl in Hy.
      now rewrite orb_false_r in Hy.
Qed.

(** X15.  The category selector: its first option is [All]; every
    further option is the truthy [category] of some item; no two of
    the further options are equal; and every non-empty text that is
    the [category] of an item is among them. *)
Theorem categories_options (items : list jsval) :
  exists rest,
    categories items = VStr "All" :: rest /\
    (forall c, In c rest ->
       truthy c = true /\
       exists i, In i items /\
                 coalesce (i # "category") (VStr EmptyString) = c) /\
    ForallOrdPairs (fun a b => sameValueZero b a = false) rest /\
    (forall i t, In i items -> i # "category" = VStr t ->
       t <> EmptyString -> In (VStr t) rest).
Proof.
  unfold categories, unique. eexists. split; [reflexivity|].
  split; [|split].
  - intros c Hc. apply uniqueFrom_In in Hc.
    apply filter_In in Hc as [Hc Ht]. split; auto.
    apply in_map_iff in Hc as (i & Hi & Hin). exists i. split; auto.
  - apply uniqueFrom_fresh.
  - intros i t Hi Hc Ht.
    destruct (uniqueFrom_keeps_text [] (filter truthy
                (map (fun i0 => coalesce (i0 # "category") (VStr EmptyString))
                     items)) t) as [H|[]]; auto.
    apply filter_In. split.
    + apply in_map_iff. exists i. split; auto. now rewrite Hc.
    + now apply truthy_VStr.
Qed.

(** X16.  Every text the category selector offers after [All] selects
    at least one row: with no search text and the status on [All],
    choosing it shows a non-empty table. *)
Theorem category_option_selects (items : list jsval) (t : string) :
  In (VStr t) (tl (categories items)) ->
  exists shown,
    filteredInventory EmptyString t "All" items = Some shown /\
    shown <> [].
Proof.
  unfold categories, unique. simpl tl. intros H.
  apply uniqueFrom_In in H. apply filter_In in H as [H _].
  apply in_map_iff in H as (i & Hc & Hi).
  set (p := fun x : jsval =>
              (t =? "All")
              || is_text (coalesce (x # "category") (VStr EmptyString)) t).
  assert (Hf : filteredInventory EmptyString t "All" items
               = Some (filter p items)).
  { unfold filteredInventory. apply filterThrowing_pure.
    intros x _. unfold inventoryMatch, p. cbv zeta. simpl.
    now rewrite andb_true_r. }
  exists (filter p items). split; [exact Hf|].
  assert (Hin : In i (filter p items)).
  { apply filter_In. split; auto. unfold p. rewrite Hc. simpl.
    rewrite String.eqb_refl. apply orb_true_r. }
  intros E. rewrite E in Hin. destruct Hin.
Qed.

(** ** The order tabs *)

(** X17.  The order tabs: on [All], and on any tab other than
    [Pending] and [Completed], every order is shown and the filter
    cannot throw; no order is shown under both [Pending] and
    [Completed]; and an order shown under [Pending] has the status
    [pending] or [in transit], one shown under [Completed] the status
    [completed], letter case aside. *)
Theorem filteredOrders_tabs (l : list jsval) :
  (forall tab, tab <> "Pending" -> tab <> "Completed" ->
               filteredOrders tab l = Some l) /\
  (forall p c x,
     filteredOrders "Pending" l = Some p ->
     filteredOrders "Completed" l = Some c ->
     In x p -> In x c -> False) /\
  (forall p x, filteredOrders "Pending" l = Some p -> In x p ->
     In x l /\
     (lowered (x # "status") = Some "pending" \/
      lowered (x # "status") = Some "in transit")) /\
  (forall c x, filteredOrders "Completed" l = Some c -> In x c ->
     In x l /\ lowered (x # "status") = Some "completed").
Proof.
  assert (Hpend : forall p x,
            filteredOrders "Pending" l = Some p -> In x p ->
            In x l /\
            (lowered (x # "status") = Some "pending" \/
             lowered (x # "status") = Some "in transit")).
  { intros p x H Hx. apply filterThrowing_Some in H as [_ ->].
    apply filter_In in Hx as [Hin Hk]. split; auto.
    unfold orderMatch in Hk. simpl in Hk.
    destruct (lowered (x # "status")) as [t|]; [|discriminate].
    apply orb_prop in Hk as [Hk|Hk]; apply String.eqb_eq in Hk; subst; auto. }
  assert (Hcomp : forall c x,
            filteredOrders "Completed" l = Some c -> In x c ->
            In x l /\ lowered (x # "status") = Some "completed").
  { intros c x H Hx. apply filterThrowing_Some in H as [_ ->].
    apply filter_In in Hx as [Hin Hk]. split; auto.
    unfold orderMatch in Hk. simpl in Hk.
    destruct (lowered (x # "status")) as [t|]; [|discriminate].
    apply String.eqb_eq in Hk. now subst. }
  split; [|split; [|split]]; auto.
  - intros tab Hp Hc. unfold filteredOrders.
    rewrite (filterThrowing_pure _ (fun _ => true)).
    + f_equal. clear. induction l as [|x l IH]; simpl; congruence.
    + intros x _. unfold orderMatch.
      destruct (tab =? "All"); auto.
      destruct (tab =? "Pending") eqn:E1;
        [apply String.eqb_eq in E1; contradiction|].
      destruct (tab =? "Completed") eqn:E2;
        [apply String.eqb_eq in E2; contradiction|].
      reflexivity.
  - intros p c x H1 H2 Hx1 Hx2.
    destruct (Hpend p x H1 Hx1) as [_ [E|E]];
      destruct (Hcomp c x H2 Hx2) as [_ E']; rewrite E in E'; discriminate.
Qed.

(** ** Expanding and collapsing orders *)

Section Toggle.

Context {K : Type} (same : K -> K -> bool).
Hypothesis same_sym : forall x y, same x y = same y x.
Hypothesis same_trans :
  forall x y z, same x y = true -> same y z = true -> same x z = true.

Lemma same_congr (x y z : K) : same x y = true -> same x z = same y z.
Proof.
  intros H. destruct (same y z) eqn:E.
  - now apply same_trans with y.
  - destruct (same x z) eqn:E'; auto.
    rewrite same_sym in H. now rewrite (same_trans y x z H E') in E.
Qed.

Lemma set_has_delete (s : list K) (x y : K) :
  set_has same (set_delete same s x) y
    = set_has same s y && negb (same x y).
Proof.
  unfold set_has, set_delete. induction s as [|z s IH]; simpl; auto.
  destruct (same x z) eqn:Exz; simpl.
  - rewrite IH. destruct (same y z) eqn:Eyz; simpl; auto.
    rewrite (same_congr x z y Exz), (same_sym z y), Eyz. simpl.
    now rewrite andb_false_r.
  - rewrite IH. destruct (same y z) eqn:Eyz; simpl; auto.
    destruct (same x y) eqn:Exy; simpl; auto.
    rewrite (same_congr x y z Exy), Eyz in Exz. discriminate.
Qed.

Lemma set_has_add (s : list K) (x y : K) :
  set_has same (set_add same s x) y = set_has same s y || same x y.
Proof.
  unfold set_add. destruct (set_has same s x) eqn:E.
  - destruct (same x y) eqn:Exy; [|now rewrite orb_false_r].
    rewrite orb_true_r. unfold set_has in *.
    apply existsb_exists in E as (z & Hz & Hs).
    apply existsb_exists. exists z. split; auto.
    now rewrite <- (same_congr x y z Exy).
  - unfold set_has. rewrite existsb_app. simpl.
    now rewrite orb_false_r, (same_sym y x).
Qed.

Lemma set_has_toggle (s : list K) (x y : K) :
  set_has same (toggleOrder same x s) y =
    if same x y then negb (set_has same s y) else set_has same s y.
Proof.
  unfold toggleOrder.
  assert (Hxy : same x y = true -> set_has same s x = set_has same s y).
  { intros H. unfold set_has. induction s as [|z s IH]; simpl; auto.
    now rewrite IH, (same_congr x y z H). }
  destruct (set_has same s x) eqn:E.
  - rewrite set_has_delete. destruct (same x y) eqn:Exy; simpl.
    + now rewrite andb_false_r, <- (Hxy eq_refl).
    + now rewrite andb_true_r.
  - rewrite set_has_add. destruct (same x y) eqn:Exy; simpl.
    + now rewrite orb_true_r, <- (Hxy eq_refl).
    + now rewrite orb_false_r.
Qed.

(** X18.  Clicking an order row flips the expanded state of the rows
    with that key and of no other row; clicking it twice restores the
    expanded state of every row; rows with equal keys are always
    expanded or collapsed together. *)
Theorem toggleOrder_flips (s : list K) (x y : K) :
  set_has same (toggleOrder same x s) y =
    (if same x y then negb (set_has same s y) else set_has same s y) /\
  set_has same (toggleOrder same x (toggleOrder same x s)) y
    = set_has same s y /\
  (same x y = true -> set_has same s x = set_has same s y).
Proof.
  split; [apply set_has_toggle|]. split.
  - rewrite !set_has_toggle.
    destruct (same x y); auto. apply negb_involutive.
  - intros H. unfold set_has. induction s as [|z s IH]; simpl; auto.
    now rewrite IH, (same_congr x y z H).
Qed.

End Toggle.

Lemma toggleOrder_flips_witness :
  set_has String.eqb (toggleOrder String.eqb "PO-2" ["PO-1"]) "PO-2" = true /\
  set_has String.eqb (toggleOrder String.eqb "PO-2" ["PO-1"]) "PO-1" = true.
Proof.
  assert (Ht : forall x y z : string,
            (x =? y) = true -> (y =? z) = true -> (x =? z) = true).
  { intros x y z H1 H2. apply String.eqb_eq in H1, H2. subst.
    apply String.eqb_refl. }
  split.
  - rewrite (proj1 (toggleOrder_flips String.eqb String.eqb_sym Ht
                      ["PO-1"] "PO-2" "PO-2")).
    reflexivity.
  - rewrite (proj1 (toggleOrder_flips String.eqb String.eqb_sym Ht
                      ["PO-1"] "PO-2" "PO-1")).
    reflexivity.
Defined.

(** ** Badges *)

(** X19.  The three badge helpers throw exactly on a value that is
    neither absent nor a string (a number, a boolean, a record, an
    array); an absent value gets the neutral colour, the low-priority
    colour and the steady icon. *)
Theorem badge_helpers_throw (v : jsval) :
  (getStatusColor v = None <-> nullish v = false /\ is_string v = false) /\
  (getPriorityColor v = None <-> nullish v = false /\ is_string v = false) /\
  (getTrendIcon v = None <-> nullish v = false /\ is_string v = false) /\
  (nullish v = true ->
   getStatusColor v = Some "bg-secondary text-secondary-foreground" /\
   getPriorityColor v = Some "bg-green-100 text-green-700 border-green-200" /\
   getTrendIcon v = Some FiMinus).
Proof.
  unfold getStatusColor, getPriorityColor, getTrendIcon.
  pose proof (lowered_None v) as Hn.
  split; [|split; [|split]].
  - destruct (lowered v); [split; [discriminate|] | tauto].
    intros H. apply Hn in H. discriminate.
  - destruct (lowered v); [split; [discriminate|] | tauto].
    intros H. apply Hn in H. discriminate.
  - destruct (lowered v); [split; [discriminate|] | tauto].
    intros H. apply Hn in H. discriminate.
  - intros H. destruct v; try discriminate; repeat split.
Qed.

(** ** Inline formatting *)

Lemma strip_split (p s r : string) : strip p s = Some r -> s = (p ++ r)%string.
Proof.
  revert s. induction p as [|a p IH]; simpl; intros s H.
  - congruence.
  - destruct s as [|b s]; [discriminate|].
    destruct (a =? b)%char eqn:E; [|discriminate].
    apply Ascii.eqb_eq in E. subst. f_equal. now apply IH.
Qed.

Lemma strip_prefix (p r : string) : strip p (p ++ r) = Some r.
Proof.
  induction p as [|a p IH]; simpl; auto. now rewrite Ascii.eqb_refl.
Qed.

Lemma strip_append (p s r x : string) :
  strip p s = Some r -> strip p (s ++ x) = Some (r ++ x)%string.
Proof.
  intros H. apply strip_split in H. subst.
  now rewrite append_assoc, strip_prefix.
Qed.

Lemma starts_with_append (p s x : string) :
  starts_with p s = true -> starts_with p (s ++ x) = true.
Proof.
  unfold starts_with. destruct (strip p s) eqn:E; [|discriminate].
  now rewrite (strip_append _ _ _ x E).
Qed.

Lemma lazy_until_marker_eq (s : string) :
  lazy_until_marker s =
    match strip marker s with
    | Some rest => Some (EmptyString, rest)
    | None =>
        match s with
        | EmptyString => None
        | String c r =>
            if line_end s then None
            else
              match lazy_until_marker r with
              | Some (cap, rest) => Some (String c cap, rest)
              | None => None
              end
        end
    end.
Proof. destruct s; reflexivity. Qed.

Lemma line_end_cons (c : ascii) (r : string) :
  line_end (String c r) =
    is_line_terminator c
    || match r with
       | String d (String e _) =>
           byte_is 226 c && byte_is 128 d
           && (byte_is 168 e || byte_is 169 e)
       | _ => false
       end.
Proof. reflexivity. Qed.

(** A line terminator does not reach into a marker. *)
Lemma line_end_app_marker (x rest : string) :
  line_end (x ++ marker ++ rest)%string = line_end x.
Proof.
  destruct x as [|c [|d [|e x]]]; try reflexivity.
  - now destruct rest.
  - change (line_end (String c (String "*" (String "*" rest)))
            = line_end (String c EmptyString)).
    rewrite !line_end_cons.
    change (byte_is 128 "*") with false. now rewrite andb_false_r.
  - change (line_end (String c (String d (String "*" (String "*" rest))))
            = line_end (String c (String d EmptyString))).
    rewrite !line_end_cons.
    change (byte_is 168 "*") with false.
    change (byte_is 169 "*") with false. now rewrite andb_false_r.
Qed.

Lemma no_line_end_cons (c : ascii) (r : string) :
  no_line_end (String c r) =
    negb (line_end (String c r)) && no_line_end r.
Proof. reflexivity. Qed.

Lemma lazy_until_marker_Some (s cap rest : string) :
  lazy_until_marker s = Some (cap, rest) ->
  s = (cap ++ marker ++ rest)%string /\
  no_line_end cap = true /\
  includes cap marker = false.
Proof.
  revert cap rest. induction s as [|c s IH]; intros cap rest H.
  - simpl in H. discriminate.
  - rewrite lazy_until_marker_eq in H.
    destruct (strip marker (String c s)) as [r|] eqn:E.
    + injection H as <- <-. apply strip_split in E. repeat split; auto.
    + destruct (line_end (String c s)) eqn:Hc; [discriminate|].
      destruct (lazy_until_marker s) as [[cap' rest']|] eqn:El;
        [|discriminate].
      injection H as <- <-.
      destruct (IH cap' rest' eq_refl) as (-> & Hall & Hinc).
      change (String c (cap' ++ marker ++ rest'))
        with (String c cap' ++ marker ++ rest')%string in Hc.
      rewrite line_end_app_marker in Hc.
      repeat split.
      * now rewrite no_line_end_cons, Hc, Hall.
      * simpl includes. rewrite Hinc, orb_false_r.
        destruct (starts_with marker (String c cap')) eqn:Es; auto.
        apply (starts_with_append _ _ (marker ++ rest')) in Es.
        unfold starts_with in Es.
        change (String c cap' ++ marker ++ rest')%string
          with (String c (cap' ++ marker ++ rest')) in Es.
        now rewrite E in Es.
Qed.

Lemma lazy_until_marker_complete (cap rest : string) :
  no_line_end cap = true ->
  lazy_until_marker (cap ++ marker ++ rest) <> None.
Proof.
  induction cap as [|c cap IH]; intros H.
  - simpl. discriminate.
  - rewrite no_line_end_cons in H. apply andb_prop in H as [Hc Hall].
    apply negb_true_iff in Hc.
    rewrite lazy_until_marker_eq.
    destruct (strip marker (String c cap ++ marker ++ rest)); [discriminate|].
    rewrite line_end_app_marker, Hc.
    change (String c cap ++ marker ++ rest)%string
      with (String c (cap ++ marker ++ rest)). cbv iota.
    specialize (IH Hall).
    destruct (lazy_until_marker (cap ++ marker ++ rest)) as [[a b]|];
      [discriminate|contradiction].
Qed.

Lemma bold_here_Some (s cap rest : string) :
  bold_here s = Some (cap, rest) ->
  s = (marker ++ cap ++ marker ++ rest)%string /\
  no_line_end cap = true /\
  includes cap marker = false.
Proof.
  unfold bold_here. destruct (strip marker s) as [r|] eqn:E; [|discriminate].
  intros H. apply lazy_until_marker_Some in H as (-> & H1 & H2).
  apply strip_split in E. auto.
Qed.

Lemma bold_here_complete (cap post : string) :
  no_line_end cap = true ->
  bold_here (marker ++ cap ++ marker ++ post) <> None.
Proof.
  intros H. unfold bold_here. rewrite strip_prefix.
  now apply lazy_until_marker_complete.
Qed.

Lemma split_bold_nonempty (fuel : nat) (s : string) : split_bold fuel s <> [].
Proof.
  destruct fuel; simpl; [discriminate|].
  destruct (bold_here s) as [[cap rest]|]; [discriminate|].
  destruct s; [discriminate|].
  destruct (split_bold fuel s); discriminate.
Qed.

Lemma concat_pieces_cons (c : ascii) (part : string) (ps : list piece) :
  String.concat EmptyString (map piece_source (Text (String c part) :: ps))
  = String c (String.concat EmptyString (map piece_source (Text part :: ps))).
Proof.
  simpl. destruct (map piece_source ps); reflexivity.
Qed.

Lemma concat_empty_cons (x : string) (l : list string) :
  String.concat EmptyString (x :: l) = (x ++ String.concat EmptyString l)%string.
Proof.
  destruct l; simpl; auto.
  clear. induction x; simpl; congruence.
Qed.

Lemma pieces_round_trip (fuel : nat) (s : string) :
  String.concat EmptyString
    (map piece_source (pieces_from false (split_bold fuel s))) = s.
Proof.
  revert s. induction fuel as [|fuel IH]; intros s.
  - simpl. reflexivity.
  - simpl split_bold.
    destruct (bold_here s) as [[cap rest]|] eqn:E.
    + apply bold_here_Some in E as (-> & _ & _).
      simpl pieces_from. simpl map.
      rewrite !concat_empty_cons, IH. unfold piece_source.
      change (EmptyString ++ ?x)%string with x.
      unfold marker. simpl. do 2 f_equal.
      now rewrite append_assoc.
    + destruct s as [|c r]; [reflexivity|].
      specialize (IH r).
      destruct (split_bold fuel r) as [|part parts] eqn:Er.
      * now apply split_bold_nonempty in Er.
      * simpl pieces_from in *. rewrite concat_pieces_cons. now rewrite IH.
Qed.

Lemma split_bold_single (s : string) :
  split_bold (String.length s) s = [s] \/
  2 <= List.length (split_bold (String.length s) s).
Proof.
  pose proof (pieces_round_trip (String.length s) s) as H.
  destruct (split_bold (String.length s) s) as [|p [|q l]] eqn:E.
  - now apply split_bold_nonempty in E.
  - left. simpl in H. now subst.
  - right. simpl. lia.
Qed.

(** X20.  Formatting a line loses nothing: putting the markers back
    around the bold pieces and concatenating gives the text again. *)
Theorem formatInline_round_trip (text : string) :
  inline_source (formatInline text) = text.
Proof.
  unfold formatInline, parts_of. cbv zeta.
  destruct (List.length (split_bold (String.length text) text) =? 1)%nat;
    [reflexivity|].
  apply pieces_round_trip.
Qed.

Lemma has_bold_empty : ~ has_bold EmptyString.
Proof.
  intros (pre & cap & post & H & _).
  destruct pre; discriminate.
Qed.

Lemma has_bold_cons (c : ascii) (s : string) :
  has_bold (String c s) ->
  bold_here (String c s) <> None \/ has_bold s.
Proof.
  intros (pre & cap & post & H & Hall).
  destruct pre as [|a pre].
  - left. simpl append in H. rewrite H.
    now apply (bold_here_complete cap post).
  - right. simpl in H. injection H as _ ->. now exists pre, cap, post.
Qed.

Lemma has_bold_append (s x : string) : has_bold s -> has_bold (s ++ x).
Proof.
  intros (pre & cap & post & -> & Hall).
  exists pre, cap, (post ++ x)%string. split; auto.
  now rewrite !append_assoc.
Qed.

Lemma split_bold_head (fuel : nat) (s part : string) (parts : list string) :
  split_bold fuel s = part :: parts -> exists x, s = (part ++ x)%string.
Proof.
  revert s part parts. induction fuel as [|fuel IH]; intros s part parts H.
  - simpl in H. injection H as <- <-. exists EmptyString.
    clear. induction s; simpl; congruence.
  - simpl in H. destruct (bold_here s) as [[cap rest]|].
    + injection H as <- _. now exists s.
    + destruct s as [|c r].
      * injection H as <- _. now exists EmptyString.
      * destruct (split_bold fuel r) as [|p ps] eqn:Er.
        -- now apply split_bold_nonempty in Er.
        -- injection H as <- <-.
           destruct (IH r p ps Er) as [x ->]. now exists x.
Qed.

Lemma bold_here_length (s cap rest : string) :
  bold_here s = Some (cap, rest) -> String.length rest < String.length s.
Proof.
  intros H. apply bold_here_Some in H as (-> & _ & _).
  rewrite !length_append. simpl. lia.
Qed.

Lemma bold_here_append (s x cap rest : string) :
  bold_here s = Some (cap, rest) -> bold_here (s ++ x) <> None.
Proof.
  intros H. apply bold_here_Some in H as (-> & Hall & _).
  rewrite !append_assoc. now apply bold_here_complete.
Qed.

Lemma pieces_ok (fuel : nat) (s : string) :
  String.length s <= fuel ->
  Forall piece_ok (pieces_from false (split_bold fuel s)).
Proof.
  revert s. induction fuel as [|fuel IH]; intros s Hlen.
  - destruct s; [|simpl in Hlen; lia].
    simpl. constructor; [apply has_bold_empty|constructor].
  - simpl split_bold.
    destruct (bold_here s) as [[cap rest]|] eqn:E.
    + pose proof (bold_here_length _ _ _ E) as Hl.
      apply bold_here_Some in E as (_ & H1 & H2).
      simpl pieces_from.
      constructor; [apply has_bold_empty|].
      constructor; [split; assumption|].
      apply IH. lia.
    + destruct s as [|c r].
      * simpl. constructor; [apply has_bold_empty|constructor].
      * simpl in Hlen. assert (Hr : String.length r <= fuel) by lia.
        specialize (IH r Hr).
        destruct (split_bold fuel r) as [|part parts] eqn:Er.
        -- now apply split_bold_nonempty in Er.
        -- simpl pieces_from in *.
           apply Forall_cons_iff in IH as [Hp Hps].
           constructor; auto. simpl. intros Hb.
           apply has_bold_cons in Hb as [Hb|Hb]; [|now apply Hp].
           destruct (split_bold_head _ _ _ _ Er) as [x ->].
           apply Hb. clear Hb.
           change (String c (part ++ x)) with (String c part ++ x)%string in E.
           destruct (bold_here (String c part)) as [[cap rest]|] eqn:Eb; auto.
           exfalso. revert E. now apply bold_here_append with cap rest.
Qed.

Lemma split_bold_many (fuel : nat) (s : string) :
  2 <= List.length (split_bold fuel s) -> has_bold s.
Proof.
  revert s. induction fuel as [|fuel IH]; intros s H.
  - simpl in H. lia.
  - simpl split_bold in H.
    destruct (bold_here s) as [[cap rest]|] eqn:E.
    + apply bold_here_Some in E as (-> & Hall & _).
      now exists EmptyString, cap, rest.
    + destruct s as [|c r]; [simpl in H; lia|].
      destruct (split_bold fuel r) as [|part parts] eqn:Er.
      * simpl in H. lia.
      * destruct (IH r) as (pre & cap & post & -> & Hall).
        { rewrite Er. exact H. }
        now exists (String c pre), cap, post.
Qed.

Lemma pieces_from_length (odd : bool) (parts : list string) :
  List.length (pieces_from odd parts) = List.length parts.
Proof.
  revert odd. induction parts; simpl; intros; auto.
Qed.

Lemma split_bold_odd (fuel : nat) (s : string) :
  Nat.odd (List.length (split_bold fuel s)) = true.
Proof.
  revert s. induction fuel as [|fuel IH]; intros s; [reflexivity|].
  simpl split_bold.
  destruct (bold_here s) as [[cap rest]|].
  - change (Nat.odd (S (S (List.length (split_bold fuel rest)))) = true).
    apply IH.
  - destruct s as [|c r]; [reflexivity|].
    specialize (IH r).
    destruct (split_bold fuel r); [discriminate|exact IH].
Qed.

(** X21.  [formatInline] returns its text unchanged exactly when the
    text has no pair of markers with no line break between them. *)
Theorem formatInline_plain_iff (text : string) :
  formatInline text = Plain text <-> ~ has_bold text.
Proof.
  unfold formatInline, parts_of. cbv zeta.
  destruct (split_bold_single text) as [E|E].
  - rewrite E. simpl. split; auto. intros _.
    pose proof (pieces_ok (String.length text) text (le_n _)) as H.
    rewrite E in H. simpl in H. now apply Forall_inv in H.
  - destruct (List.length (split_bold (String.length text) text) =? 1)%nat
      eqn:El.
    + apply Nat.eqb_eq in El. lia.
    + split; [discriminate|]. intros H. exfalso. apply H.
      now apply split_bold_many with (String.length text).
Qed.

(** X22.  When [formatInline] returns pieces, there are at least three
    and an odd number of them; a bold piece contains neither a marker
    nor a line break, and a plain piece contains no pair of markers
    that could still be formatted. *)
Theorem formatInline_pieces (text : string) (l : list piece) :
  formatInline text = Pieces l ->
  Forall piece_ok l /\
  Nat.odd (List.length l) = true /\
  3 <= List.length l.
Proof.
  unfold formatInline, parts_of. cbv zeta.
  destruct (List.length (split_bold (String.length text) text) =? 1)%nat
    eqn:El; [discriminate|].
  intros H. injection H as <-.
  split; [apply pieces_ok; lia|].
  rewrite pieces_from_length.
  pose proof (split_bold_odd (String.length text) text) as Ho.
  split; auto.
  apply Nat.eqb_neq in El.
  destruct (split_bold (String.length text) text) as [|a [|b [|c r]]];
    simpl in *; try discriminate; lia.
Qed.

Lemma formatInline_pieces_witness :
  Forall piece_ok
    [Text "Stock is "; Strong "low"; Text EmptyString].
Proof.
  exact (proj1 (formatInline_pieces "Stock is **low**" _ eq_refl)).
Defined.

(** ** Numbered items *)

Lemma white_space_iff (s r : string) :
  white_space s = Some r <->
  exists w, is_white w = true /\ s = (w ++ r)%string.
Proof.
  unfold is_white. split.
  - intros H. apply white_space_Some in H as (w & -> & Hw & _).
    exists w. now rewrite Hw.
  - intros (w & Hw & ->).
    destruct (white_space w) as [[|a x]|] eqn:E; try discriminate.
    now apply (white_space_app _ _ r) in E.
Qed.

Lemma dot_space_Some (s rest : string) :
  dot_space s = Some rest <->
  exists w, is_white w = true /\ s = String "." (w ++ rest).
Proof.
  unfold dot_space. destruct s as [|a r].
  - split; [discriminate|]. intros (w & _ & H). discriminate.
  - destruct (Ascii.eqb_spec a ".") as [->|Hne].
    + rewrite white_space_iff. split.
      * intros (w & Hw & ->). now exists w.
      * intros (w & Hw & H). injection H as ->. now exists w.
    + split.
      * destruct a as [[] [] [] [] [] [] [] []]; try discriminate.
        now contradiction Hne.
      * intros (w & _ & H). injection H as -> _. now contradiction Hne.
Qed.

Lemma dot_space_digit (c : ascii) (r : string) :
  is_digit c = true -> dot_space (String c r) = None.
Proof.
  intros H. unfold dot_space.
  destruct c as [[] [] [] [] [] [] [] []]; try reflexivity; discriminate.
Qed.

Lemma more_digits_cons (c : ascii) (r : string) :
  more_digits (String c r) =
    if is_digit c then
      match more_digits r with
      | Some rest => Some rest
      | None => dot_space (String c r)
      end
    else dot_space (String c r).
Proof. reflexivity. Qed.

Lemma more_digits_Some (s rest : string) :
  more_digits s = Some rest <->
  exists ds w,
    all_chars is_digit ds = true /\ is_white w = true /\
    s = (ds ++ String "." (w ++ rest))%string.
Proof.
  revert rest. induction s as [|a s IH]; intros rest.
  - simpl. split; [discriminate|].
    intros (ds & w & _ & _ & H). destruct ds; discriminate.
  - rewrite more_digits_cons. destruct (is_digit a) eqn:Ea.
    + rewrite (dot_space_digit a s Ea).
      destruct (more_digits s) as [r|] eqn:Em.
      * split.
        -- intros H. injection H as ->.
           destruct (proj1 (IH rest) eq_refl) as (ds & w & Hall & Hw & ->).
           exists (String a ds), w. simpl. now rewrite Ea.
        -- intros (ds & w & Hall & Hw & H).
           destruct ds as [|d ds]; simpl in H.
           ++ injection H as -> _. discriminate.
           ++ injection H as <- ->. simpl in Hall.
              apply andb_prop in Hall as [_ Hall].
              apply IH. now exists ds, w.
      * split; [discriminate|].
        intros (ds & w & Hall & Hw & H).
        destruct ds as [|d ds]; simpl in H.
        -- injection H as -> _. discriminate.
        -- injection H as <- ->. simpl in Hall.
           apply andb_prop in Hall as [_ Hall].
           assert (Hs : None = Some rest); [|discriminate].
           apply IH. now exists ds, w.
    + rewrite dot_space_Some. split.
      * intros (w & Hw & H). now exists EmptyString, w.
      * intros (ds & w & Hall & Hw & H).
        destruct ds as [|d ds]; simpl in H.
        -- exists w. auto.
        -- injection H as <- _. simpl in Hall. rewrite Ea in Hall.
           discriminate.
Qed.

(** X23.  A line is a numbered item exactly when it starts with one or
    more digits, a dot and one white-space character; the item shows
    what follows these, unchanged. *)
Theorem numbered_spec (line rest : string) :
  numbered line = Some rest <->
  exists d ds w,
    is_digit d = true /\ all_chars is_digit ds = true /\
    is_white w = true /\
    line = String d (ds ++ String "." (w ++ rest)).
Proof.
  unfold numbered. destruct line as [|a r].
  - split; [discriminate|]. intros (d & ds & w & _ & _ & _ & H).
    discriminate.
  - destruct (is_digit a) eqn:Ea.
    + rewrite more_digits_Some. split.
      * intros (ds & w & Hall & Hw & ->). now exists a, ds, w.
      * intros (d & ds & w & Hd & Hall & Hw & H). injection H as -> ->.
        now exists ds, w.
    + split; [discriminate|].
      intros (d & ds & w & Hd & _ & _ & H). injection H as -> _.
      congruence.
Qed.

(** ** Lines and blocks *)

Lemma split_lines_nonempty (s : string) : split_lines s <> [].
Proof.
  destruct s as [|c r]; simpl; [discriminate|].
  destruct (c =? newline)%char; [discriminate|].
  destruct (split_lines r); discriminate.
Qed.

Lemma split_lines_cons (c : ascii) (r : string) :
  split_lines (String c r) =
    if (c =? newline)%char then EmptyString :: split_lines r
    else
      match split_lines r with
      | line :: rest => String c line :: rest
      | [] => [String c EmptyString]
      end.
Proof. reflexivity. Qed.

Lemma count_char_cons (c c' : ascii) (r : string) :
  count_char c (String c' r) =
    (if (c =? c')%char then 1 else 0) + count_char c r.
Proof. reflexivity. Qed.

Lemma join_cons (sep p q : string) (rest : list string) :
  join sep (p :: q :: rest) = (p ++ sep ++ join sep (q :: rest))%string.
Proof. reflexivity. Qed.

Lemma split_lines_spec (s : string) :
  join nl (split_lines s) = s /\
  List.length (split_lines s) = S (count_char newline s) /\
  Forall (fun line => has_char newline line = false) (split_lines s).
Proof.
  induction s as [|c r (IHj & IHl & IHf)].
  - simpl. repeat split. constructor; auto.
  - rewrite split_lines_cons, count_char_cons.
    rewrite (Ascii.eqb_sym newline c).
    destruct (c =? newline)%char eqn:Ec.
    + apply Ascii.eqb_eq in Ec. subst c.
      destruct (split_lines r) as [|line rest] eqn:E;
        [now apply split_lines_nonempty in E|].
      repeat split.
      * rewrite join_cons, IHj. reflexivity.
      * simpl List.length in *. lia.
      * constructor; auto.
    + destruct (split_lines r) as [|line rest] eqn:E;
        [now apply split_lines_nonempty in E|].
      repeat split.
      * rewrite <- IHj. destruct rest; reflexivity.
      * simpl List.length in *. lia.
      * apply Forall_cons_iff in IHf as [H1 H2].
        constructor; auto.
        now rewrite has_char_cons, (Ascii.eqb_sym newline c), Ec.
Qed.

(** X24.  [renderMarkdown] returns [null] exactly for a falsy value
    and throws exactly for a truthy value that is not a string; for a
    non-empty string it returns one block per line, the lines being the
    text between the newline characters in order. *)
Theorem renderMarkdown_blocks (text : jsval) :
  (renderMarkdown text = Some None <-> truthy text = false) /\
  (renderMarkdown text = None <->
     truthy text = true /\ is_string text = false) /\
  (forall s, text = VStr s -> s <> EmptyString ->
     exists lines,
       renderMarkdown text = Some (Some (map renderLine lines)) /\
       join nl lines = s /\
       List.length lines = S (count_char newline s) /\
       Forall (fun line => has_char newline line = false) lines).
Proof.
  unfold renderMarkdown. split; [|split].
  - destruct (truthy text) eqn:E; simpl.
    + destruct text; split; discriminate.
    + tauto.
  - destruct (truthy text) eqn:E; simpl.
    + destruct text; simpl; split; try discriminate; auto;
        intros [_ H]; discriminate.
    + split; [discriminate|]. intros [H _]. discriminate.
  - intros s -> Hs. exists (split_lines s).
    assert (Ht : truthy (VStr s) = true) by now apply truthy_VStr.
    rewrite Ht. simpl. split; auto. apply split_lines_spec.
Qed.

(** ** Chat bubbles *)

Lemma renderMarkdown_throws (v : jsval) :
  renderMarkdown v = None <-> truthy v = true /\ is_string v = false.
Proof.
  unfold renderMarkdown. destruct (truthy v) eqn:E; simpl.
  - destruct v; simpl; split; try discriminate; auto;
      intros [_ H]; discriminate.
  - split; [discriminate|]. intros [H _]. discriminate.
Qed.

Lemma renderMarkdown_text (v : jsval) :
  truthy v = false \/ is_string v = true ->
  exists r, renderMarkdown v = Some r /\ (r = None <-> truthy v = false).
Proof.
  intros H. unfold renderMarkdown. destruct (truthy v) eqn:E; simpl.
  - destruct H as [H|H]; [discriminate|].
    destruct v; try discriminate. eexists. split; [reflexivity|].
    split; discriminate.
  - eexists. split; [reflexivity|]. tauto.
Qed.

(** X25.  A reply whose resolved [message] is truthy but not a string
    (a number, a record, a list) is stored as the content of the agent
    line, and rendering that line throws. *)
Theorem reply_bubble_throws (result : jsval) (now : Z) (st : PageState) :
  truthy (result # "success") = true ->
  truthy (parseAgentResponse result) = true ->
  truthy (parseAgentResponse result # "message") = true ->
  is_string (parseAgentResponse result # "message") = false ->
  exists m,
    chatMessages (sendChat_settle (Fulfilled result) now st)
      = chatMessages st ++ [m] /\
    role m = agent /\
    content m = parseAgentResponse result # "message" /\
    renderBubble m = None.
Proof.
  intros Hs Hp Hm Hn.
  rewrite (chat_settle_message result now st Hs), Hp.
  eexists. split; [reflexivity|]. split; [reflexivity|].
  assert (Hc : coalesce (parseAgentResponse result # "message")
                        (extractMessageFromResult result)
               = parseAgentResponse result # "message").
  { unfold coalesce. now rewrite (truthy_not_nullish _ Hm). }
  split; [exact Hc|].
  unfold renderBubble. simpl. rewrite Hc.
  destruct (renderMarkdown (parseAgentResponse result # "message")) eqn:E;
    auto.
  assert (H : renderMarkdown (parseAgentResponse result # "message") = None)
    by now apply renderMarkdown_throws.
  congruence.
Qed.

Lemma reply_bubble_throws_witness :
  exists m,
    chatMessages (sendChat_settle (Fulfilled numberReply) 12 loadedState)
      = chatMessages loadedState ++ [m] /\
    role m = agent /\
    content m = parseAgentResponse numberReply # "message" /\
    renderBubble m = None.
Proof.
  exact (reply_bubble_throws numberReply 12 loadedState
           eq_refl eq_refl eq_refl eq_refl).
Defined.

(** X26.  When every [message] the reply carries is a string or falsy,
    rendering the agent line of a successful chat call does not throw;
    the bubble is empty exactly when the stored content is falsy, which
    happens only for a resolved [message] that is falsy without being
    [null] or [undefined]. *)
Theorem reply_bubble_renders (result : jsval) (now : Z) (st : PageState) :
  truthy (result # "success") = true ->
  (forall v, In v [parseAgentResponse result # "message";
                   result # "response" # "message";
                   result # "response" # "result" # "message"] ->
             truthy v = true -> is_string v = true) ->
  exists m r,
    chatMessages (sendChat_settle (Fulfilled result) now st)
      = chatMessages st ++ [m] /\
    renderBubble m = Some (Rendered r) /\
    (r = None <->
     truthy (parseAgentResponse result) = true /\
     truthy (parseAgentResponse result # "message") = false /\
     nullish (parseAgentResponse result # "message") = false).
Proof.
  intros Hs Htyped.
  rewrite (chat_settle_message result now st Hs).
  destruct (extractMessage_string_when_typed result Htyped) as (s & Es & Hne).
  assert (Hts : truthy (VStr s) = true) by now apply truthy_VStr.
  destruct (truthy (parseAgentResponse result)) eqn:Hp.
  - unfold coalesce.
    destruct (nullish (parseAgentResponse result # "message")) eqn:Hn.
    + rewrite Es. eexists. eexists. split; [reflexivity|].
      unfold renderBubble, renderMarkdown. simpl role. simpl content.
      rewrite Hts. simpl. split; [reflexivity|].
      split; [discriminate|]. intros (_ & _ & H). discriminate.
    + destruct (renderMarkdown_text (parseAgentResponse result # "message"))
        as (r & Er & Hr).
      { destruct (truthy (parseAgentResponse result # "message")) eqn:Ht;
          auto. right. apply Htyped; simpl; auto. }
      eexists. exists r. split; [reflexivity|].
      unfold renderBubble. simpl role. simpl content. rewrite Er.
      split; [reflexivity|]. rewrite Hr. tauto.
  - rewrite Es. eexists. eexists. split; [reflexivity|].
    unfold renderBubble, renderMarkdown. simpl role. simpl content.
    rewrite Hts. simpl. split; [reflexivity|].
    split; [discriminate|]. intros (H & _). discriminate.
Qed.

Lemma reply_bubble_renders_witness :
  exists m r,
    chatMessages (sendChat_settle (Fulfilled summaryOnly) 12 loadedState)
      = chatMessages loadedState ++ [m] /\
    renderBubble m = Some (Rendered r) /\
    (r = None <->
     truthy (parseAgentResponse summaryOnly) = true /\
     truthy (parseAgentResponse summaryOnly # "message") = false /\
     nullish (parseAgentResponse summaryOnly # "message") = false).
Proof.
  apply (reply_bubble_renders summaryOnly 12 loadedState eq_refl).
  intros v [<-|[<-|[<-|[]]]]; vm_compute; auto.
Defined.

(** ** Sessions *)

Lemma run_user_lines (op : operation) (st : PageState) :
  Forall user_line_ok (chatMessages st) ->
  Forall user_line_ok (chatMessages (run op st)).
Proof.
  intros H.
  assert (Hagent : forall v t,
            Forall user_line_ok (chatMessages st ++ [mkChatMessage agent v t])).
  { intros v t. apply Forall_app. split; auto.
    constructor; [|constructor]. intros E. discriminate. }
  destruct op as [|o now|now|o now|text]; simpl; auto.
  - unfold fetchDashboard_settle.
    destruct (awaited o) as [e|result]; simpl; auto.
    destruct (truthy (result # "success")); simpl; auto.
    destruct (truthy (parseAgentResponse result)); simpl; auto.
    destruct (truthy (parseAgentResponse result # "message")); simpl; auto.
    constructor; [|constructor]. intros E. discriminate.
  - unfold sendChat_start.
    destruct (sendChat_proceeds st) eqn:Ep; simpl; auto.
    apply Forall_app. split; auto. constructor; [|constructor].
    intros _. simpl. eexists. split; [reflexivity|].
    split; [|apply trim_idem].
    unfold sendChat_proceeds in Ep. apply andb_prop in Ep as [Ep _].
    apply negb_true_iff in Ep. intros E. rewrite E in Ep. discriminate.
  - unfold sendChat_settle.
    destruct (awaited o) as [e|result]; simpl; [apply Hagent|].
    destruct (truthy (result # "success")); simpl; [|apply Hagent].
    destruct (truthy (parseAgentResponse result)); simpl; apply Hagent.
Qed.

(** X27.  Throughout a session the stored snapshot is [null] or a
    record, and every user line of the transcript is a non-empty string
    with no white space at either end. *)
Theorem session_invariant (st : PageState) :
  reachable st ->
  is_snapshot (agentData st) = true /\
  Forall user_line_ok (chatMessages st).
Proof.
  intros H. split; [now apply reachable_snapshot|].
  induction H as [|op st _ IH]; [constructor|].
  now apply run_user_lines.
Qed.

Lemma session_invariant_witness :
  is_snapshot (agentData loadedState) = true /\
  Forall user_line_ok (chatMessages loadedState).
Proof.
  exact (session_invariant loadedState loadedState_reachable).
Defined.

Lemma run_all_app (ops : list operation) (op : operation) (st : PageState) :
  run_all (ops ++ [op]) st = run op (run_all ops st).
Proof. unfold run_all. now rewrite fold_left_app. Qed.

(** X28.  The transcript only grows, except at a dashboard fetch that
    settles with a snapshot carrying a truthy [message]: over any run
    of operations without such a fetch the messages already there stay,
    in place, at the head of the transcript. *)
Theorem transcript_append_only (ops : list operation) (st : PageState) :
  forallb (fun op => negb (replaces_transcript op)) ops = true ->
  exists suffix,
    chatMessages (run_all ops st) = chatMessages st ++ suffix.
Proof.
  revert st. induction ops as [|op ops IH]; intros st H.
  - exists []. simpl. now rewrite app_nil_r.
  - simpl in H. apply andb_prop in H as [Hop Hops].
    apply negb_true_iff in Hop.
    destruct (transcript_extended op st Hop) as [s1 E1].
    destruct (IH (run op st) Hops) as [s2 E2].
    exists (s1 ++ s2). simpl. unfold run_all in E2. simpl in E2.
    unfold run_all. simpl. rewrite E2, E1. now rewrite app_assoc.
Qed.

Lemma transcript_append_only_witness :
  exists suffix,
    chatMessages (run_all earlyQuestion loadedState)
      = chatMessages loadedState ++ suffix.
Proof.
  exact (transcript_append_only earlyQuestion loadedState eq_refl).
Defined.

(** ** Instances *)

Lemma resolver_needs_record_witness :
  parseAgentResponse (VStr innerText) = VNull.
Proof.
  apply resolver_needs_record. intros o. discriminate.
Defined.

Lemma raw_response_double_encoded_witness :
  parseAgentResponse doubleEncoded = VObj [("message", VStr "hi")].
Proof.
  apply (raw_response_double_encoded doubleEncoded outerText innerText
           [("response", VStr innerText)]);
    vm_compute; reflexivity.
Defined.

Lemma chat_merge_keeps_views_witness :
  inventoryItems (merge (agentData loadedState) (VObj [])) = [exampleItem].
Proof.
  destruct (chat_merge_keeps_views (agentData loadedState) (VObj []) eq_refl)
    as (_ & H & _).
  rewrite H. reflexivity.
Defined.


Lemma category_option_selects_witness :
  exists shown,
    filteredInventory EmptyString "Weights" "All" exampleInventory
      = Some shown /\
    shown <> [].
Proof.
  apply category_option_selects. vm_compute. auto.
Defined.
